(** * lwc-dev-mobile-core: src/common/Common.ts

    A shallow embedding of [MapUtils], [CommandLineUtils] and [Version] of
    [Common.ts], and of the string primitives of the JavaScript runtime they
    call, followed by the properties stated about them, and by further
    properties of the same code and of [SetUtils].

    Modelling conventions.
    - A JavaScript string is a [string]: a sequence of code units, each one an
      [ascii], read as the UTF-16 code unit of the same number (0..255, the
      Latin-1 range).  White space and lower-casing are the runtime's,
      restricted to that range.
    - A JavaScript number is an IEEE 754 binary64 double, as the Standard
      Library specifies them: a [spec_float] with a significand of 53 bits
      and exponent bound 1024.  Products, sums and comparisons are the ones
      of that specification, rounding to nearest, ties to even; the double
      of an integer is the nearest one, and Infinity beyond the range.
    - [throw new Error(msg)] is the [Throw] completion carrying the message.
    - A [Map] is the list of its entries in insertion order. *)

From Stdlib Require Import ZArith NArith List Bool Ascii String DecimalString Lia.
From Stdlib Require Import SpecFloat.
From Stdlib Require DecimalPos DecimalN.
Import ListNotations.

Local Open Scope string_scope.
Local Open Scope Z_scope.

(* ================================================================== *)
(** * Part I: the embedding *)
(* ================================================================== *)

(** ** The runtime: strings, numbers, completions *)

Module JS.

(** A value of type [number]: a binary64 double, as the Standard Library's
    [SpecFloat] has it: a signed zero, a signed infinity, NaN, or a finite
    sign * mantissa * 2^exponent.  Arithmetic rounds to the nearest double,
    ties to even, and overflows to an infinity. *)
Definition number : Type := spec_float.

Definition prec : Z := 53.
Definition emax : Z := 1024.

Definition NaN : number := S754_nan.
Definition Infinity : number := S754_infinity false.

(** [Number.isNaN]. *)
Definition isNaN (n : number) : bool :=
  match n with
  | S754_nan => true
  | _ => false
  end.

(** The number value of an integer: the double nearest to it, ties to even,
    and an infinity when it is out of range.  A numeric literal such as
    [100] is [ofInteger 100]. *)
Definition ofInteger (z : Z) : number := binary_normalize prec emax z 0 false.

(** [x * y], [x + y], [x === y] and [x < y] on numbers. *)
Definition times (x y : number) : number := SFmul prec emax x y.
Definition plus (x y : number) : number := SFadd prec emax x y.
Definition strictEquals (x y : number) : bool := SFeqb x y.
Definition lessThan (x y : number) : bool := SFltb x y.

(** [new Error(message)]. *)
Inductive Error : Type :=
| mkError (message : string).

(** How a call ends: [return a] or [throw e]. *)
Inductive completion (A : Type) : Type :=
| Return (a : A)
| Throw (e : Error).
Arguments Return {A} a.
Arguments Throw {A} e.

Definition codeUnit (c : ascii) : N := N_of_ascii c.

(** WhiteSpace and LineTerminator code units below 256:
    TAB, LF, VT, FF, CR, SP, NBSP. *)
Definition isWhiteSpace (c : ascii) : bool :=
  let n := codeUnit c in
  ((n =? 9) || (n =? 10) || (n =? 11) || (n =? 12) || (n =? 13)
   || (n =? 32) || (n =? 160))%N.

Definition isDigit (c : ascii) : bool :=
  let n := codeUnit c in
  ((48 <=? n) && (n <=? 57))%N.

(** Lower-casing of one code unit: A-Z, and the Latin-1 capitals
    U+00C0..U+00DE except the multiplication sign U+00D7. *)
Definition toLowerCaseUnit (c : ascii) : ascii :=
  let n := codeUnit c in
  if (((65 <=? n) && (n <=? 90))
      || ((192 <=? n) && (n <=? 222) && negb (n =? 215)))%N
  then ascii_of_N (n + 32)
  else c.

Fixpoint mapUnits (f : ascii -> ascii) (s : string) : string :=
  match s with
  | EmptyString => EmptyString
  | String c s' => String (f c) (mapUnits f s')
  end.

Fixpoint dropUnits (p : ascii -> bool) (s : string) : string :=
  match s with
  | EmptyString => EmptyString
  | String c s' => if p c then dropUnits p s' else String c (dropUnits p s')
  end.

(** [s.toLowerCase()]. *)
Definition toLowerCase (s : string) : string := mapUnits toLowerCaseUnit s.

(** [s.trimStart()], [s.trimEnd()], [s.trim()]. *)
Fixpoint trimStart (s : string) : string :=
  match s with
  | EmptyString => EmptyString
  | String c s' => if isWhiteSpace c then trimStart s' else s
  end.

Fixpoint trimEnd (s : string) : string :=
  match s with
  | EmptyString => EmptyString
  | String c s' =>
      match trimEnd s' with
      | EmptyString => if isWhiteSpace c then EmptyString else String c EmptyString
      | r => String c r
      end
  end.

Definition trim (s : string) : string := trimEnd (trimStart s).

(** [s.replace(/[...]+/g, '')] for a character class [cls]: every maximal
    run of units of the class is removed, so exactly the units outside the
    class remain. *)
Definition replaceClassRuns (cls : ascii -> bool) (s : string) : string :=
  dropUnits cls s.

(** [s.replace(/x/g, y)] for single units [x] and [y]. *)
Definition replaceUnit (x y : ascii) (s : string) : string :=
  mapUnits (fun c => if Ascii.eqb c x then y else c) s.

(** [s.split(sep)] for a separator of one unit.  The result is never empty:
    the empty string splits into one empty segment. *)
Fixpoint split (sep : ascii) (s : string) : list string :=
  match s with
  | EmptyString => [EmptyString]
  | String c s' =>
      if Ascii.eqb c sep then EmptyString :: split sep s'
      else match split sep s' with
           | seg :: rest => String c seg :: rest
           | [] => [String c EmptyString]
           end
  end.

(** The longest prefix of decimal digits, and its value. *)
Fixpoint digitsPrefix (s : string) : string :=
  match s with
  | EmptyString => EmptyString
  | String c s' => if isDigit c then String c (digitsPrefix s') else EmptyString
  end.

Definition digitValue (c : ascii) : Z := Z.of_N (codeUnit c) - 48.

Fixpoint digitsValue (acc : Z) (s : string) : Z :=
  match s with
  | EmptyString => acc
  | String c s' => digitsValue (acc * 10 + digitValue c) s'
  end.

(** [Number.parseInt(s, 10)]: leading white space is skipped, one sign is
    read, then the longest run of digits; no digit gives NaN, the integer 0
    gives the zero of the sign, and any other integer its number value. *)
Definition parseInt10 (s : string) : number :=
  let inputString := trimStart s in
  let '(sign, rest) :=
    match inputString with
    | String "-" r => (-1, r)
    | String "+" r => (1, r)
    | _ => (1, inputString)
    end in
  match digitsPrefix rest with
  | EmptyString => NaN
  | ds =>
      let mathInt := digitsValue 0 ds in
      if mathInt =? 0 then S754_zero (sign <? 0)
      else ofInteger (sign * mathInt)
  end.

(** The primitive values a parameter of type [any] may hold. *)
Inductive value : Type :=
| VUndefined : value
| VNull : value
| VBoolean : bool -> value
| VNumber : number -> value
| VString : string -> value.

(** ToBoolean: what [if (v)] and [v && ...] test.  The numbers that are
    false are NaN and the two zeros. *)
Definition ToBoolean (v : value) : bool :=
  match v with
  | VUndefined | VNull => false
  | VBoolean b => b
  | VNumber S754_nan => false
  | VNumber (S754_zero _) => false
  | VNumber _ => true
  | VString EmptyString => false
  | VString (String _ _) => true
  end.

(** [v.length]: a TypeError on undefined and null, the number of code units
    of a string, and [undefined] ([None]) on a boolean or a number. *)
Definition getLength (v : value) : completion (option Z) :=
  match v with
  | VUndefined => Throw (mkError "TypeError: Cannot read properties of undefined")
  | VNull => Throw (mkError "TypeError: Cannot read properties of null")
  | VString s => Return (Some (Z.of_nat (String.length s)))
  | VBoolean _ | VNumber _ => Return None
  end.

(** [x > 0] for [x] a number or [undefined]; [undefined > 0] is false. *)
Definition greaterThanZero (x : option Z) : bool :=
  match x with
  | Some z => 0 <? z
  | None => false
  end.

End JS.

(** ** class MapUtils *)

Module MapUtils.
Section Filter.
Variables K V : Type.
(** Equality of keys (SameValueZero). *)
Variable sameKey : K -> K -> bool.

(** A [Map<K, V>]: its entries, oldest first. *)
Definition Map : Type := list (K * V).

(** [m.set(key, value)]: the value of a key already present is replaced
    where the key stands; a new key goes to the end. *)
Fixpoint set (m : Map) (key : K) (value : V) : Map :=
  match m with
  | [] => [(key, value)]
  | (k, v) :: m' =>
      if sameKey k key then (k, value) :: m'
      else (k, v) :: set m' key value
  end.

(** [Array.from(m.entries())]. *)
Definition entries (m : Map) : list (K * V) := m.

(** [MapUtils.filter(map, predicate)]; a [null] or [undefined] map is
    [None]. *)
Definition filter (map : option Map) (predicate : K -> V -> bool) : Map :=
  let aMap : Map := [] in
  match map with
  | None => aMap
  | Some map =>
      fold_left
        (fun aMap '(key, value) =>
           if predicate key value then set aMap key value else aMap)
        (entries map) aMap
  end.

(** The keys of a [Map] are pairwise different. *)
Definition wellFormed (m : Map) : Prop := NoDup (List.map fst m).
End Filter.

Arguments set {K V} sameKey m key value.
Arguments entries {K V} m.
Arguments filter {K V} sameKey map predicate.
Arguments wellFormed {K V} m.
End MapUtils.

(** ** class SetUtils *)

Module SetUtils.
Section Filter.
Variable V : Type.
(** Equality of elements (SameValueZero). *)
Variable sameValue : V -> V -> bool.

(** A [Set<V>]: its elements, oldest first. *)
Definition Set_ : Type := list V.

(** [s.has(value)]. *)
Fixpoint has (s : Set_) (value : V) : bool :=
  match s with
  | [] => false
  | v :: s' => sameValue v value || has s' value
  end.

(** [s.add(value)]: an element already present stays where it is; a new
    one goes to the end. *)
Definition add (s : Set_) (value : V) : Set_ :=
  if has s value then s else (s ++ [value])%list.

(** [Array.from(s.entries())]: one pair [[value, value]] per element. *)
Definition entries (s : Set_) : list (V * V) :=
  List.map (fun v => (v, v)) s.

(** [SetUtils.filter(set, predicate)]; a [null] or [undefined] set is
    [None].  The loop binds [value] to the first component of each entry. *)
Definition filter (set : option Set_) (predicate : V -> bool) : Set_ :=
  let aSet : Set_ := [] in
  match set with
  | None => aSet
  | Some set =>
      fold_left
        (fun aSet '(value, _) =>
           if predicate value then add aSet value else aSet)
        (entries set) aSet
  end.

(** The elements of a [Set] are pairwise different. *)
Definition wellFormed (s : Set_) : Prop := NoDup s.
End Filter.

Arguments has {V} sameValue s value.
Arguments add {V} sameValue s value.
Arguments entries {V} s.
Arguments filter {V} sameValue set predicate.
Arguments wellFormed {V} s.
End SetUtils.

(** ** class CommandLineUtils *)

Module CommandLineUtils.
Import JS.

Definition IOS_FLAG : string := "ios".
Definition ANDROID_FLAG : string := "android".

(** [platformFlagIsIOS(input)]; an absent input is [None]. *)
Definition platformFlagIsIOS (input : option string) : bool :=
  match input with
  | Some s =>
      if ToBoolean (VString s) then String.eqb (toLowerCase s) IOS_FLAG
      else false
  | None => false
  end.

(** [platformFlagIsAndroid(input)]. *)
Definition platformFlagIsAndroid (input : option string) : bool :=
  match input with
  | Some s =>
      if ToBoolean (VString s) then String.eqb (toLowerCase s) ANDROID_FLAG
      else false
  | None => false
  end.

(** [platformFlagIsValid(platformFlag)]. *)
Definition platformFlagIsValid (platformFlag : option string) : bool :=
  platformFlagIsIOS platformFlag || platformFlagIsAndroid platformFlag.

(** [resolveFlag(flag, defaultValue)].  [flag as string] is a type
    assertion: it leaves the value as it is.  [&&] evaluates its right
    operand only when the left one is truthy. *)
Definition resolveFlag (flag : value) (defaultValue : string)
  : completion value :=
  let resolvedFlag := flag in
  if ToBoolean resolvedFlag then
    match getLength resolvedFlag with
    | Throw e => Throw e
    | Return len =>
        if greaterThanZero len then Return resolvedFlag
        else Return (VString defaultValue)
    end
  else Return (VString defaultValue).

End CommandLineUtils.

(** ** class Version *)

Module Version.
Import JS.

Record Version : Type :=
  mkVersion { major : number; minor : number; patch : number }.

(** The character class of [acceptedRange = /[0-9\-\.]+/g]. *)
Definition acceptedRange (c : ascii) : bool :=
  isDigit c || Ascii.eqb c "-" || Ascii.eqb c ".".

Definition invalidVersion (input : string) : Error :=
  mkError ("Invalid version string: " ++ input).

(** [Version.from(input)]. *)
Definition from (input : string) : completion Version :=
  let original := toLowerCase (trim input) in
  let invalidChars := replaceClassRuns acceptedRange original in
  if (0 <? String.length invalidChars)%nat then Throw (invalidVersion input)
  else
    let parts := split "." (replaceUnit "-" "." original) in
    let major := if (1 <=? List.length parts)%nat
                 then parseInt10 (nth 0 parts "") else ofInteger 0 in
    let minor := if (2 <=? List.length parts)%nat
                 then parseInt10 (nth 1 parts "") else ofInteger 0 in
    let patch := if (3 <=? List.length parts)%nat
                 then parseInt10 (nth 2 parts "") else ofInteger 0 in
    if isNaN major || isNaN minor || isNaN patch
    then Throw (invalidVersion input)
    else Return (mkVersion major minor patch).

(** [this.compare(another)].  The result is one of the numbers 0, -1 and 1,
    kept as an integer. *)
Definition compare (this another : Version) : Z :=
  let v1 := plus (plus (times (major this) (ofInteger 100))
                       (times (minor this) (ofInteger 10)))
                 (patch this) in
  let v2 := plus (plus (times (major another) (ofInteger 100))
                       (times (minor another) (ofInteger 10)))
                 (patch another) in
  if strictEquals v1 v2 then 0
  else if lessThan v1 v2 then -1
  else 1.

(** [this.same(inputVersion)]. *)
Definition same (this inputVersion : Version) : bool :=
  compare this inputVersion =? 0.

(** [this.sameOrNewer(inputVersion)]. *)
Definition sameOrNewer (this inputVersion : Version) : bool :=
  -1 <? compare this inputVersion.

End Version.

(** ** The vocabulary of the statements *)

Module Claims.
Import JS Version.

(** The code units of a string, in order. *)
Definition units (s : string) : list ascii := list_ascii_of_string s.

(** A character other than a digit, a period or a hyphen. *)
Definition otherCharacter (c : ascii) : Prop :=
  isDigit c = false /\ c <> "."%char /\ c <> "-"%char.

Definition containsOther (s : string) : Prop :=
  exists c, In c (units s) /\ otherCharacter c.

(** The input trimmed, hyphens turned into periods, split on periods. *)
Definition segments (input : string) : list string :=
  split "." (replaceUnit "-" "." (trim input)).

(** A segment that does not parse as a base-10 integer. *)
Definition failsToParse (seg : string) : Prop :=
  isNaN (parseInt10 seg) = true.

(** One of the first min(3, number of segments) segments fails to parse. *)
Definition requiredSegmentFails (input : string) : Prop :=
  exists i seg,
    (i < Nat.min 3 (List.length (segments input)))%nat /\
    nth_error (segments input) i = Some seg /\
    failsToParse seg.

Definition whiteSpaceOnly (s : string) : Prop :=
  forall c, In c (units s) -> isWhiteSpace c = true.

(** The integer a number holds, when it holds one ([Number.isInteger]). *)
Definition integerValue (x : number) : option Z :=
  match x with
  | S754_zero _ => Some 0
  | S754_finite s m e =>
      let v := if s then Z.neg m else Z.pos m in
      if 0 <=? e then Some (v * 2 ^ e)
      else if (Z.pos m) mod 2 ^ (- e) =? 0 then Some (v / 2 ^ (- e))
      else None
  | S754_infinity _ | S754_nan => None
  end.

(** The scalar of a version as the code computes it: every product and
    every sum is a double. *)
Definition scalar (v : Version) : number :=
  plus (plus (times (major v) (ofInteger 100))
             (times (minor v) (ofInteger 10)))
       (patch v).

(** The scalar of a version with integer fields, in exact arithmetic. *)
Definition exactScalar (v : Version) : option Z :=
  match integerValue (major v), integerValue (minor v),
        integerValue (patch v) with
  | Some ma, Some mi, Some pa => Some (ma * 100 + mi * 10 + pa)
  | _, _, _ => None
  end.

(** The three-way comparison of two integers. *)
Definition threeWay (x y : Z) : Z :=
  match x ?= y with
  | Lt => -1
  | Eq => 0
  | Gt => 1
  end.

(** The three-way comparison of two numbers; NaN compares with nothing. *)
Definition numberThreeWay (x y : number) : option Z :=
  match SFcompare x y with
  | Some Lt => Some (-1)
  | Some Eq => Some 0
  | Some Gt => Some 1
  | None => None
  end.

(** The place of a number that is not NaN in the order of the doubles. *)
Definition orderKey (x : number) : Z * Z * Z :=
  match x with
  | S754_nan => (0, 0, 0)
  | S754_zero _ => (0, 0, 0)
  | S754_infinity true => (-2, 0, 0)
  | S754_infinity false => (2, 0, 0)
  | S754_finite false m e => (1, e, Z.pos m)
  | S754_finite true m e => (-1, - e, Z.neg m)
  end.

Definition lex3 (k1 k2 : Z * Z * Z) : comparison :=
  let '(a1, b1, c1) := k1 in
  let '(a2, b2, c2) := k2 in
  match a1 ?= a2 with
  | Eq => match b1 ?= b2 with
          | Eq => c1 ?= c2
          | r => r
          end
  | r => r
  end.

(** The version whose fields are the doubles of three integers. *)
Definition versionOf (ma mi pa : Z) : Version :=
  mkVersion (ofInteger ma) (ofInteger mi) (ofInteger pa).

(** A number that is not NaN and not negative: +0, a positive double or
    +Infinity. *)
Definition nonNegative (x : number) : Prop :=
  match x with
  | S754_nan => False
  | S754_zero s | S754_infinity s | S754_finite s _ _ => s = false
  end.

(** Two calls end alike: both throw, or both return the same fields. *)
Definition sameOutcome (r1 r2 : completion Version) : Prop :=
  match r1, r2 with
  | Return v1, Return v2 =>
      major v1 = major v2 /\ minor v1 = minor v2 /\ patch v1 = patch v2
  | Throw _, Throw _ => True
  | _, _ => False
  end.

(** Every unit of [s] satisfies [p]. *)
Fixpoint allUnits (p : ascii -> bool) (s : string) : bool :=
  match s with
  | EmptyString => true
  | String c s' => p c && allUnits p s'
  end.

(** The second half of [Version.from]: the three fields read off the
    segments, and the test for NaN. *)
Definition fromParts (input : string) (parts : list string)
  : completion Version :=
  let major := if (1 <=? List.length parts)%nat
               then parseInt10 (nth 0 parts "") else ofInteger 0 in
  let minor := if (2 <=? List.length parts)%nat
               then parseInt10 (nth 1 parts "") else ofInteger 0 in
  let patch := if (3 <=? List.length parts)%nat
               then parseInt10 (nth 2 parts "") else ofInteger 0 in
  if isNaN major || isNaN minor || isNaN patch
  then Throw (invalidVersion input)
  else Return (mkVersion major minor patch).

(** [Version.from] from the point where [original] is known. *)
Definition fromOriginal (input original : string) : completion Version :=
  let invalidChars := replaceClassRuns acceptedRange original in
  if (0 <? String.length invalidChars)%nat then Throw (invalidVersion input)
  else fromParts input (split "." (replaceUnit "-" "." original)).

(** The hyphen-to-period map on one unit. *)
Definition hyphenToPeriod (c : ascii) : ascii :=
  if Ascii.eqb c "-" then "."%char else c.



(** A string of [n] copies of one unit. *)
Fixpoint repeatUnit (c : ascii) (n : nat) : string :=
  match n with
  | O => EmptyString
  | S n' => String c (repeatUnit c n')
  end.


End Claims.

(** ** The vocabulary of the further properties *)

Module More.
Import JS Version Claims.

(** A natural number written in base 10, without leading zeros. *)
Definition decimal (n : N) : string := NilZero.string_of_uint (N.to_uint n).

(** The order of semantic versioning on two triples of integers: majors
    first, then minors, then patches. *)
Definition lexCompare (ma1 mi1 pa1 ma2 mi2 pa2 : Z) : Z :=
  match ma1 ?= ma2 with
  | Lt => -1
  | Gt => 1
  | Eq =>
      match mi1 ?= mi2 with
      | Lt => -1
      | Gt => 1
      | Eq => threeWay pa1 pa2
      end
  end.

(** [x <= y] on numbers. *)
Definition atMost (x y : number) : bool := SFleb x y.

(** A string of decimal digits with at least one digit. *)
Definition digitRun (s : string) : Prop :=
  s <> "" /\ allUnits isDigit s = true.

(** One of the two separators of a version string. *)
Definition isSeparator (c : ascii) : Prop := c = "."%char \/ c = "-"%char.

End More.

(* ================================================================== *)
(** * Part II: the properties *)
(* ================================================================== *)

Import JS Claims.

(** ** Facts about single code units *)

Ltac by_cases_on_unit c :=
  destruct c as [[] [] [] [] [] [] [] []]; vm_compute; try reflexivity; try discriminate.

Lemma acceptedRange_toLowerCaseUnit (c : ascii) :
  Version.acceptedRange (toLowerCaseUnit c) = Version.acceptedRange c.
Proof. by_cases_on_unit c. Qed.

Lemma toLowerCaseUnit_accepted (c : ascii) :
  Version.acceptedRange c = true -> toLowerCaseUnit c = c.
Proof. by_cases_on_unit c. Qed.

Lemma acceptedRange_other (c : ascii) :
  Version.acceptedRange c = false <-> otherCharacter c.
Proof.
  unfold Version.acceptedRange, otherCharacter.
  rewrite !orb_false_iff, !Ascii.eqb_neq. tauto.
Qed.

Lemma isWhiteSpace_hyphenToPeriod (c : ascii) :
  isWhiteSpace (hyphenToPeriod c) = isWhiteSpace c.
Proof. by_cases_on_unit c. Qed.

Lemma toLowerCaseUnit_hyphenToPeriod (c : ascii) :
  toLowerCaseUnit (hyphenToPeriod c) = hyphenToPeriod (toLowerCaseUnit c).
Proof. by_cases_on_unit c. Qed.

Lemma acceptedRange_hyphenToPeriod (c : ascii) :
  Version.acceptedRange (hyphenToPeriod c) = Version.acceptedRange c.
Proof. by_cases_on_unit c. Qed.

Lemma hyphenToPeriod_idem (c : ascii) :
  hyphenToPeriod (hyphenToPeriod c) = hyphenToPeriod c.
Proof. by_cases_on_unit c. Qed.

Lemma isDigit_not_hyphen (c : ascii) : isDigit c = true -> c <> "-"%char.
Proof. by_cases_on_unit c. Qed.

Lemma digitValue_nonneg (c : ascii) : isDigit c = true -> 0 <= digitValue c.
Proof. by_cases_on_unit c. Qed.

(** ** Facts about strings *)

Lemma allUnits_false_iff (p : ascii -> bool) (s : string) :
  allUnits p s = false <-> exists c, In c (units s) /\ p c = false.
Proof.
  induction s as [|c s IH]; simpl.
  - split; [discriminate | intros (c & [] & _)].
  - rewrite andb_false_iff, IH. split.
    + intros [Hc | (d & Hd & Hp)].
      * exists c; auto.
      * exists d; auto.
    + intros (d & [-> | Hd] & Hp); [left | right; exists d]; auto.
Qed.

Lemma allUnits_true_iff (p : ascii -> bool) (s : string) :
  allUnits p s = true <-> forall c, In c (units s) -> p c = true.
Proof.
  induction s as [|c s IH]; simpl.
  - split; [intros _ c [] | reflexivity].
  - rewrite andb_true_iff, IH. split.
    + intros [Hc Hs] d [<- | Hd]; auto.
    + intros H; split; [|intros d Hd]; apply H; auto.
Qed.

Lemma allUnits_mapUnits (p : ascii -> bool) (f : ascii -> ascii) (s : string) :
  allUnits p (mapUnits f s) = allUnits (fun c => p (f c)) s.
Proof. induction s as [|c s IH]; simpl; [reflexivity | now rewrite IH]. Qed.

Lemma allUnits_ext (p q : ascii -> bool) (s : string) :
  (forall c, p c = q c) -> allUnits p s = allUnits q s.
Proof. intros H; induction s as [|c s IH]; simpl; [reflexivity | now rewrite H, IH]. Qed.

Lemma dropUnits_length (cls : ascii -> bool) (s : string) :
  (0 <? String.length (dropUnits cls s))%nat = negb (allUnits cls s).
Proof.
  induction s as [|c s IH]; simpl; [reflexivity|].
  destruct (cls c); simpl; [exact IH | reflexivity].
Qed.

Lemma mapUnits_id_on (f : ascii -> ascii) (p : ascii -> bool) (s : string) :
  (forall c, p c = true -> f c = c) -> allUnits p s = true -> mapUnits f s = s.
Proof.
  intros Hf; induction s as [|c s IH]; simpl; [reflexivity|].
  rewrite andb_true_iff; intros [Hc Hs]. now rewrite Hf, IH.
Qed.

Lemma mapUnits_mapUnits (f g : ascii -> ascii) (s : string) :
  mapUnits f (mapUnits g s) = mapUnits (fun c => f (g c)) s.
Proof. induction s as [|c s IH]; simpl; [reflexivity | now rewrite IH]. Qed.

Lemma mapUnits_ext (f g : ascii -> ascii) (s : string) :
  (forall c, f c = g c) -> mapUnits f s = mapUnits g s.
Proof. intros H; induction s as [|c s IH]; simpl; [reflexivity | now rewrite H, IH]. Qed.

Lemma replaceUnit_hyphen (s : string) :
  replaceUnit "-" "." s = mapUnits hyphenToPeriod s.
Proof. reflexivity. Qed.

Lemma trimStart_mapUnits (f : ascii -> ascii) (s : string) :
  (forall c, isWhiteSpace (f c) = isWhiteSpace c) ->
  trimStart (mapUnits f s) = mapUnits f (trimStart s).
Proof.
  intros Hf; induction s as [|c s IH]; simpl; [reflexivity|].
  rewrite Hf. destruct (isWhiteSpace c); [exact IH | reflexivity].
Qed.

Lemma trimEnd_mapUnits (f : ascii -> ascii) (s : string) :
  (forall c, isWhiteSpace (f c) = isWhiteSpace c) ->
  trimEnd (mapUnits f s) = mapUnits f (trimEnd s).
Proof.
  intros Hf; induction s as [|c s IH]; simpl; [reflexivity|].
  rewrite IH, Hf. destruct (trimEnd s); simpl; [|reflexivity].
  destruct (isWhiteSpace c); reflexivity.
Qed.

Lemma trim_mapUnits (f : ascii -> ascii) (s : string) :
  (forall c, isWhiteSpace (f c) = isWhiteSpace c) ->
  trim (mapUnits f s) = mapUnits f (trim s).
Proof.
  intros Hf. unfold trim. now rewrite trimStart_mapUnits, trimEnd_mapUnits.
Qed.

Lemma trimStart_whiteSpaceOnly (s : string) :
  whiteSpaceOnly s -> trimStart s = "".
Proof.
  unfold whiteSpaceOnly; induction s as [|c s IH]; simpl; intros H; [reflexivity|].
  rewrite (H c) by auto. apply IH. intros d Hd; apply H; auto.
Qed.

Lemma trim_whiteSpaceOnly (s : string) : whiteSpaceOnly s -> trim s = "".
Proof. intros H. unfold trim. now rewrite trimStart_whiteSpaceOnly. Qed.

Lemma split_nonempty (sep : ascii) (s : string) : split sep s <> [].
Proof.
  induction s as [|c s IH]; simpl; [discriminate|].
  destruct (Ascii.eqb c sep); [discriminate|].
  destruct (split sep s); discriminate.
Qed.

(** A unit of a segment is a unit of the string that was split. *)
Lemma split_units (sep : ascii) (s seg : string) (c : ascii) :
  In seg (split sep s) -> In c (units seg) -> In c (units s).
Proof.
  revert seg; induction s as [|d s IH]; simpl; intros seg Hseg Hc.
  - destruct Hseg as [<- | []]. exact Hc.
  - destruct (Ascii.eqb d sep).
    + destruct Hseg as [<- | Hseg]; [destruct Hc | right; eauto].
    + destruct (split sep s) as [|seg0 rest] eqn:E.
      * destruct Hseg as [<- | []]. destruct Hc as [-> | []]. now left.
      * destruct Hseg as [<- | Hseg].
        -- destruct Hc as [-> | Hc]; [now left | right].
           apply (IH seg0); [now left | exact Hc].
        -- right. apply (IH seg); [now right | exact Hc].
Qed.

Lemma mapUnits_units (f : ascii -> ascii) (s : string) (c : ascii) :
  In c (units (mapUnits f s)) -> exists d, In d (units s) /\ c = f d.
Proof.
  induction s as [|d s IH]; simpl; [intros []|].
  intros [<- | H]; [exists d; auto|].
  destruct (IH H) as (e & He & ->). exists e; auto.
Qed.

Lemma trimStart_units (s : string) (c : ascii) :
  In c (units (trimStart s)) -> In c (units s).
Proof.
  induction s as [|d s IH]; simpl; [auto|].
  destruct (isWhiteSpace d); simpl; auto.
Qed.

(** ** Doubles: rounding an integer *)

Lemma shr_1_nonneg (mrs : shr_record) : 0 <= shr_m mrs -> 0 <= shr_m (shr_1 mrs).
Proof.
  destruct mrs as [m r s]; simpl.
  destruct m as [|[p|p|]|[p|p|]]; simpl; lia.
Qed.

Lemma iter_pos_invariant (A : Type) (f : A -> A) (P : A -> Prop) :
  (forall x, P x -> P (f x)) ->
  forall n x, P x -> P (iter_pos f n x).
Proof.
  intros Hf. induction n as [n IH|n IH|]; simpl; intros x Hx; auto.
Qed.

Lemma shr_nonneg (mrs : shr_record) (e n : Z) :
  0 <= shr_m mrs -> 0 <= shr_m (fst (shr mrs e n)) /\ e <= snd (shr mrs e n).
Proof.
  intros H. unfold shr. destruct n as [|p|p]; simpl; try (split; [exact H | lia]).
  split; [|lia]. apply (iter_pos_invariant _ shr_1 (fun r => 0 <= shr_m r)); auto using shr_1_nonneg.
Qed.

Lemma shr_record_of_loc_m (m : Z) (l : location) : shr_m (shr_record_of_loc m l) = m.
Proof. destruct l as [|[]]; reflexivity. Qed.

Lemma shr_fexp_nonneg (m e : Z) (l : location) :
  0 <= m ->
  0 <= shr_m (fst (shr_fexp prec emax m e l)) /\ e <= snd (shr_fexp prec emax m e l).
Proof.
  intros H. unfold shr_fexp. apply shr_nonneg. now rewrite shr_record_of_loc_m.
Qed.

Lemma round_nearest_even_nonneg (m : Z) (l : location) :
  0 <= m -> 0 <= round_nearest_even m l.
Proof.
  intros H. destruct l as [|[]]; simpl; try lia. destruct (Z.even m); lia.
Qed.

(** What rounding returns has the sign it was given, is never NaN, and its
    exponent is not below the one it was given. *)
Lemma binary_round_aux_signed (sx : bool) (m e : Z) (l : location) :
  0 <= m ->
  match binary_round_aux prec emax sx m e l with
  | S754_nan => False
  | S754_zero s | S754_infinity s => s = sx
  | S754_finite s _ e' => s = sx /\ e <= e'
  end.
Proof.
  intros H. unfold binary_round_aux.
  pose proof (shr_fexp_nonneg m e l H) as [H1 E1].
  destruct (shr_fexp prec emax m e l) as [mrs' e']. simpl in H1, E1.
  pose proof (shr_fexp_nonneg _ e' loc_Exact
                (round_nearest_even_nonneg _ (loc_of_shr_record mrs') H1)) as [H2 E2].
  destruct (shr_fexp prec emax (round_nearest_even (shr_m mrs') (loc_of_shr_record mrs')) e' loc_Exact)
    as [mrs'' e'']. simpl in H2, E2.
  destruct (shr_m mrs'') as [|p|p]; [reflexivity | | lia].
  destruct (e'' <=? emax - prec); [split; [reflexivity | lia] | reflexivity].
Qed.

Lemma pos_iter_xO (m k : positive) :
  Z.pos (Pos.iter xO m k) = Z.pos m * 2 ^ Z.pos k.
Proof.
  induction k as [|k IH] using Pos.peano_ind.
  - simpl. lia.
  - rewrite Pos.iter_succ, Pos2Z.inj_xO, IH, Pos2Z.inj_succ, Z.pow_succ_r by lia. lia.
Qed.

Lemma digits2_pos_iter_xO (m k : positive) :
  digits2_pos (Pos.iter xO m k) = (digits2_pos m + k)%positive.
Proof.
  induction k as [|k IH] using Pos.peano_ind.
  - simpl. lia.
  - rewrite Pos.iter_succ. simpl. rewrite IH. lia.
Qed.

(** Rounding leaves a significand of 53 bits with an exponent in range as
    it is. *)
Lemma binary_round_aux_canonical (s : bool) (m : positive) (e : Z) :
  Z.pos (digits2_pos m) = 53 -> -1074 <= e <= 971 ->
  binary_round_aux prec emax s (Z.pos m) e loc_Exact = S754_finite s m e.
Proof.
  intros Hd He. unfold binary_round_aux.
  assert (E : forall l, l = loc_Exact ->
            shr_fexp prec emax (Z.pos m) e l
            = ({| shr_m := Z.pos m; shr_r := false; shr_s := false |}, e)).
  { intros l ->. unfold shr_fexp, Zdigits2. rewrite Hd.
    unfold fexp, SpecFloat.emin, prec, emax.
    replace (Z.max (53 + e - 53) (3 - 1024 - 53) - e) with 0 by lia.
    reflexivity. }
  rewrite (E _ eq_refl). cbn [shr_m loc_of_shr_record round_nearest_even].
  rewrite (E _ eq_refl). cbn [shr_m].
  unfold prec, emax. destruct (Z.leb_spec e (1024 - 53)); [reflexivity | lia].
Qed.

(** The double of a positive integer of at most 53 bits holds that integer. *)
Lemma ofInteger_small (z : positive) :
  Z.pos (digits2_pos z) <= 53 ->
  integerValue (ofInteger (Z.pos z)) = Some (Z.pos z) /\
  integerValue (ofInteger (Z.neg z)) = Some (Z.neg z).
Proof.
  intros Hd. unfold ofInteger, binary_normalize, binary_round, shl_align.
  unfold fexp, SpecFloat.emin, prec, emax.
  replace (Z.max (Z.pos (digits2_pos z) + 0 - 53) (3 - 1024 - 53) - 0)
    with (Z.pos (digits2_pos z) - 53) by lia.
  destruct (Z.pos (digits2_pos z) - 53) as [|k|k] eqn:Ek; [|lia|].
  - replace (Z.max (Z.pos (digits2_pos z) + 0 - 53) (3 - 1024 - 53)) with 0 by lia.
    fold prec emax. rewrite !binary_round_aux_canonical by lia.
    split; simpl; f_equal; lia.
  - replace (Z.max (Z.pos (digits2_pos z) + 0 - 53) (3 - 1024 - 53)) with (Z.neg k) by lia.
    fold prec emax.
    rewrite !binary_round_aux_canonical
      by (rewrite ?digits2_pos_iter_xO; lia).
    unfold integerValue. cbn [Z.leb Z.compare Z.opp].
    rewrite pos_iter_xO.
    assert (P : 0 < 2 ^ Z.pos k) by (apply Z.pow_pos_nonneg; lia).
    rewrite Z.mod_mul by lia. cbn [Z.eqb].
    split; f_equal.
    + apply Z.div_mul; lia.
    + change (Z.neg (Pos.iter xO z k)) with (- Z.pos (Pos.iter xO z k)).
      rewrite pos_iter_xO.
      replace (- (Z.pos z * 2 ^ Z.pos k)) with ((- Z.pos z) * 2 ^ Z.pos k) by lia.
      rewrite Z.div_mul by lia. reflexivity.
Qed.

Lemma digits2_pos_le (p : positive) (n : Z) :
  Z.pos p < 2 ^ n -> 0 <= n -> Z.pos (digits2_pos p) <= n.
Proof.
  revert n; induction p as [p IH|p IH|]; intros n Hp Hn; simpl.
  - assert (n <> 0) by (intros ->; simpl in Hp; lia).
    replace n with (Z.succ (n - 1)) in Hp by lia.
    rewrite Z.pow_succ_r in Hp by lia.
    specialize (IH (n - 1) ltac:(lia) ltac:(lia)). lia.
  - assert (n <> 0) by (intros ->; simpl in Hp; lia).
    replace n with (Z.succ (n - 1)) in Hp by lia.
    rewrite Z.pow_succ_r in Hp by lia.
    specialize (IH (n - 1) ltac:(lia) ltac:(lia)). lia.
  - assert (n <> 0) by (intros ->; simpl in Hp; lia). lia.
Qed.

(** The double of an integer between 0 and 2^53 holds that integer. *)
Lemma ofInteger_exact (z : Z) :
  0 <= z < 2 ^ 53 -> integerValue (ofInteger z) = Some z.
Proof.
  intros [H0 H1]. destruct z as [|p|p]; [reflexivity | | lia].
  apply ofInteger_small, digits2_pos_le; lia.
Qed.

(** The double of a positive integer holds an integer that is not
    negative, or is +Infinity. *)
Lemma ofInteger_pos (z : positive) :
  ofInteger (Z.pos z) = S754_infinity false \/
  exists n, 0 <= n /\ integerValue (ofInteger (Z.pos z)) = Some n.
Proof.
  destruct (Z.le_gt_cases (Z.pos (digits2_pos z)) 53) as [Hd | Hd].
  - right. exists (Z.pos z). split; [lia | apply (ofInteger_small z Hd)].
  - unfold ofInteger, binary_normalize, binary_round, shl_align.
    unfold fexp, SpecFloat.emin, prec, emax.
    replace (Z.max (Z.pos (digits2_pos z) + 0 - 53) (3 - 1024 - 53) - 0)
      with (Z.pos (digits2_pos z) - 53) by lia.
    destruct (Z.pos (digits2_pos z) - 53) as [|k|k] eqn:Ek; [lia| |lia].
    fold prec emax.
    pose proof (binary_round_aux_signed false (Z.pos z) 0 loc_Exact ltac:(lia)) as H.
    destruct (binary_round_aux prec emax false (Z.pos z) 0 loc_Exact) as [s|s| |s m e].
    + right. exists 0. split; [lia | reflexivity].
    + left. now rewrite H.
    + contradiction.
    + right. destruct H as [-> He]. exists (Z.pos m * 2 ^ e).
      split; [apply Z.mul_nonneg_nonneg; [lia | apply Z.pow_nonneg; lia]|].
      unfold integerValue. destruct (Z.leb_spec 0 e); [reflexivity | lia].
Qed.

(** ** [Number.parseInt] *)

Lemma digitsValue_nonneg (s : string) (acc : Z) :
  0 <= acc -> allUnits isDigit s = true -> 0 <= digitsValue acc s.
Proof.
  revert acc; induction s as [|c s IH]; simpl; intros acc Hacc; [auto|].
  rewrite andb_true_iff; intros [Hc Hs].
  apply IH; [|exact Hs]. pose proof (digitValue_nonneg c Hc). lia.
Qed.

Lemma digitsPrefix_digits (s : string) : allUnits isDigit (digitsPrefix s) = true.
Proof.
  induction s as [|c s IH]; simpl; [reflexivity|].
  destruct (isDigit c) eqn:E; simpl; [now rewrite E | reflexivity].
Qed.

Lemma binary_round_signed (sx : bool) (m : positive) (e : Z) :
  match binary_round prec emax sx m e with
  | S754_nan => False
  | S754_zero s | S754_infinity s | S754_finite s _ _ => s = sx
  end.
Proof.
  unfold binary_round.
  destruct (shl_align m e (fexp prec emax (Z.pos (digits2_pos m) + e)))
    as [mz ez].
  pose proof (binary_round_aux_signed sx (Z.pos mz) ez loc_Exact ltac:(lia)) as H.
  destruct (binary_round_aux prec emax sx (Z.pos mz) ez loc_Exact); tauto.
Qed.

(** The double of an integer is never NaN, and is not negative when the
    integer is not. *)
Lemma ofInteger_not_NaN (z : Z) : isNaN (ofInteger z) = false.
Proof.
  unfold ofInteger, binary_normalize. destruct z as [|p|p]; [reflexivity| |].
  - pose proof (binary_round_signed false p 0) as H.
    destruct (binary_round prec emax false p 0); tauto.
  - pose proof (binary_round_signed true p 0) as H.
    destruct (binary_round prec emax true p 0); tauto.
Qed.

Lemma ofInteger_nonNegative (z : Z) : 0 <= z -> nonNegative (ofInteger z).
Proof.
  unfold ofInteger, binary_normalize. destruct z as [|p|p]; [reflexivity| |lia].
  intros _. pose proof (binary_round_signed false p 0) as H.
  destruct (binary_round prec emax false p 0); exact H.
Qed.

(** ** Doubles: the order *)

Lemma SFcompare_key (x y : number) :
  isNaN x = false -> isNaN y = false ->
  SFcompare x y = Some (lex3 (orderKey x) (orderKey y)).
Proof.
  destruct x as [sx|sx| |sx mx ex]; destruct y as [sy|sy| |sy my ey];
    try discriminate; intros _ _;
    repeat match goal with b : bool |- _ => destruct b end;
    try reflexivity.
  simpl. rewrite Z.compare_opp, (Z.compare_antisym ex ey).
  destruct (ex ?= ey); reflexivity.
Qed.

Lemma SFcompare_NaN (x y : number) :
  isNaN x = true \/ isNaN y = true -> SFcompare x y = None.
Proof.
  destruct x as [sx|sx| |sx mx ex]; destruct y as [sy|sy| |sy my ey];
    simpl; intros [H | H]; try discriminate; reflexivity.
Qed.

Lemma lex3_spec (k1 k2 : Z * Z * Z) :
  let '(a1, b1, c1) := k1 in
  let '(a2, b2, c2) := k2 in
  match lex3 k1 k2 with
  | Lt => a1 < a2 \/ (a1 = a2 /\ (b1 < b2 \/ (b1 = b2 /\ c1 < c2)))
  | Eq => a1 = a2 /\ b1 = b2 /\ c1 = c2
  | Gt => a2 < a1 \/ (a1 = a2 /\ (b2 < b1 \/ (b1 = b2 /\ c2 < c1)))
  end.
Proof.
  destruct k1 as [[a1 b1] c1], k2 as [[a2 b2] c2]. unfold lex3.
  destruct (Z.compare_spec a1 a2); [|lia|lia].
  destruct (Z.compare_spec b1 b2); [|lia|lia].
  destruct (Z.compare_spec c1 c2); lia.
Qed.

Lemma lex3_antisym (k1 k2 : Z * Z * Z) : lex3 k2 k1 = CompOpp (lex3 k1 k2).
Proof.
  pose proof (lex3_spec k1 k2) as H12. pose proof (lex3_spec k2 k1) as H21.
  destruct k1 as [[a1 b1] c1], k2 as [[a2 b2] c2].
  destruct (lex3 (a1, b1, c1) (a2, b2, c2)), (lex3 (a2, b2, c2) (a1, b1, c1));
    simpl; try reflexivity; lia.
Qed.

Lemma lex3_refl (k : Z * Z * Z) : lex3 k k = Eq.
Proof.
  destruct k as [[a b] c]. unfold lex3. now rewrite !Z.compare_refl.
Qed.

(** [lex3] is transitive: not below, twice, is not below. *)
Lemma lex3_trans (k1 k2 k3 : Z * Z * Z) :
  lex3 k1 k2 <> Lt -> lex3 k2 k3 <> Lt -> lex3 k1 k3 <> Lt.
Proof.
  pose proof (lex3_spec k1 k2) as H12. pose proof (lex3_spec k2 k3) as H23.
  pose proof (lex3_spec k1 k3) as H13.
  destruct k1 as [[a1 b1] c1], k2 as [[a2 b2] c2], k3 as [[a3 b3] c3].
  destruct (lex3 (a1, b1, c1) (a2, b2, c2)), (lex3 (a2, b2, c2) (a3, b3, c3)),
    (lex3 (a1, b1, c1) (a3, b3, c3)); intros; try congruence; lia.
Qed.

Lemma lex3_eq_trans (k1 k2 k3 : Z * Z * Z) :
  lex3 k1 k2 = Eq -> lex3 k2 k3 = Eq -> lex3 k1 k3 = Eq.
Proof.
  pose proof (lex3_spec k1 k2) as H12. pose proof (lex3_spec k2 k3) as H23.
  pose proof (lex3_spec k1 k3) as H13.
  destruct k1 as [[a1 b1] c1], k2 as [[a2 b2] c2], k3 as [[a3 b3] c3].
  destruct (lex3 (a1, b1, c1) (a2, b2, c2)), (lex3 (a2, b2, c2) (a3, b3, c3)),
    (lex3 (a1, b1, c1) (a3, b3, c3)); intros; try congruence; lia.
Qed.

(** [compare] read off the comparison of the two scalars. *)

(** ** Doubles: products and sums of small integers are exact *)

Lemma digits2_pos_log2 (p : positive) :
  Z.pos (digits2_pos p) = Z.log2 (Z.pos p) + 1.
Proof.
  assert (E : forall q, digits2_pos q = Pos.size q)
    by (induction q; simpl; congruence).
  rewrite E. destruct p; simpl; lia.
Qed.

Lemma digits2_pos_bounds (p : positive) :
  2 ^ (Z.pos (digits2_pos p) - 1) <= Z.pos p < 2 ^ Z.pos (digits2_pos p).
Proof.
  rewrite digits2_pos_log2.
  replace (Z.log2 (Z.pos p) + 1 - 1) with (Z.log2 (Z.pos p)) by lia.
  replace (Z.log2 (Z.pos p) + 1) with (Z.succ (Z.log2 (Z.pos p))) by lia.
  apply Z.log2_spec. lia.
Qed.

Lemma iter_pos_comm (A : Type) (f : A -> A) (n : positive) (x : A) :
  iter_pos f n (f x) = f (iter_pos f n x).
Proof.
  revert x; induction n as [n IH|n IH|]; simpl; intros x;
    [now rewrite !IH | now rewrite !IH | reflexivity].
Qed.

Lemma iter_pos_succ (A : Type) (f : A -> A) (n : positive) (x : A) :
  iter_pos f (Pos.succ n) x = iter_pos f n (f x).
Proof.
  revert x; induction n as [n IH|n IH|]; simpl; intros x.
  - rewrite !IH. now rewrite !iter_pos_comm.
  - reflexivity.
  - reflexivity.
Qed.

(** Shifting out zeros: nothing is lost. *)
Lemma shr_exact (q k : positive) :
  iter_pos shr_1 k
    {| shr_m := Z.pos (Pos.iter xO q k); shr_r := false; shr_s := false |}
  = {| shr_m := Z.pos q; shr_r := false; shr_s := false |}.
Proof.
  induction k as [|k IH] using Pos.peano_ind.
  - reflexivity.
  - rewrite iter_pos_succ, Pos.iter_succ. simpl. exact IH.
Qed.

(** Rounding a significand that is one of 53 bits followed by zeros gives
    that significand. *)
Lemma round_exact (s : bool) (m : positive) (e : Z) (q : positive) (n : Z) :
  0 <= n -> Z.pos m = Z.pos q * 2 ^ n ->
  Z.pos (digits2_pos q) = 53 -> -1074 <= e + n <= 971 ->
  binary_round_aux prec emax s (Z.pos m) e loc_Exact = S754_finite s q (e + n).
Proof.
  intros Hn Hm Hq He. destruct n as [|k|k]; [| |lia].
  - rewrite Z.pow_0_r, Z.mul_1_r in Hm. injection Hm as ->.
    rewrite Z.add_0_r in *. now apply binary_round_aux_canonical.
  - assert (Em : m = Pos.iter xO q k).
    { apply Pos2Z.inj. now rewrite pos_iter_xO. }
    subst m. unfold binary_round_aux.
    assert (E1 : shr_fexp prec emax (Z.pos (Pos.iter xO q k)) e loc_Exact
                 = ({| shr_m := Z.pos q; shr_r := false; shr_s := false |},
                    e + Z.pos k)).
    { unfold shr_fexp, Zdigits2. rewrite digits2_pos_iter_xO, Pos2Z.inj_add, Hq.
      unfold fexp, SpecFloat.emin, prec, emax.
      replace (Z.max (53 + Z.pos k + e - 53) (3 - 1024 - 53) - e)
        with (Z.pos k) by lia.
      unfold shr. cbn [shr_record_of_loc]. now rewrite shr_exact. }
    rewrite E1. cbn [shr_m loc_of_shr_record round_nearest_even].
    assert (E2 : shr_fexp prec emax (Z.pos q) (e + Z.pos k) loc_Exact
                 = ({| shr_m := Z.pos q; shr_r := false; shr_s := false |},
                    e + Z.pos k)).
    { unfold shr_fexp, Zdigits2. rewrite Hq.
      unfold fexp, SpecFloat.emin, prec, emax.
      replace (Z.max (53 + (e + Z.pos k) - 53) (3 - 1024 - 53) - (e + Z.pos k))
        with 0 by lia.
      reflexivity. }
    rewrite E2. cbn [shr_m]. unfold prec, emax.
    destruct (Z.leb_spec (e + Z.pos k) (1024 - 53)); [reflexivity | lia].
Qed.

(** The double of a positive integer of at most 53 bits, spelled out. *)
Lemma ofInteger_canonical (z : positive) :
  Z.pos (digits2_pos z) <= 53 ->
  exists m,
    ofInteger (Z.pos z) = S754_finite false m (Z.pos (digits2_pos z) - 53) /\
    Z.pos (digits2_pos m) = 53 /\
    Z.pos m = Z.pos z * 2 ^ (53 - Z.pos (digits2_pos z)).
Proof.
  intros Hd. unfold ofInteger, binary_normalize, binary_round, shl_align.
  unfold fexp, SpecFloat.emin, prec, emax.
  replace (Z.max (Z.pos (digits2_pos z) + 0 - 53) (3 - 1024 - 53) - 0)
    with (Z.pos (digits2_pos z) - 53) by lia.
  replace (Z.max (Z.pos (digits2_pos z) + 0 - 53) (3 - 1024 - 53))
    with (Z.pos (digits2_pos z) - 53) by lia.
  destruct (Z.pos (digits2_pos z) - 53) as [|k|k] eqn:Ek; [|lia|].
  - exists z. fold prec emax. rewrite binary_round_aux_canonical by lia.
    unfold prec.
    replace (53 - Z.pos (digits2_pos z)) with 0 by lia.
    split; [reflexivity | split; [lia | rewrite Z.pow_0_r; lia]].
  - exists (Pos.iter xO z k). fold prec emax.
    rewrite binary_round_aux_canonical
      by (rewrite ?digits2_pos_iter_xO; lia).
    unfold prec.
    replace (53 - Z.pos (digits2_pos z)) with (Z.pos k) by lia.
    rewrite digits2_pos_iter_xO, pos_iter_xO.
    split; [reflexivity | split; [lia | reflexivity]].
Qed.

Lemma digits2_pos_mul (x y : positive) :
  Z.pos (digits2_pos x) + Z.pos (digits2_pos y) - 1
  <= Z.pos (digits2_pos (x * y)).
Proof.
  rewrite !digits2_pos_log2, Pos2Z.inj_mul.
  pose proof (Z.log2_mul_below (Z.pos x) (Z.pos y) ltac:(lia) ltac:(lia)). lia.
Qed.

Lemma digits2_pos_mono (x y : positive) :
  (x <= y)%positive -> Z.pos (digits2_pos x) <= Z.pos (digits2_pos y).
Proof.
  intros H. rewrite !digits2_pos_log2.
  pose proof (Z.log2_le_mono (Z.pos x) (Z.pos y) ltac:(lia)). lia.
Qed.

(** The product of two positive integers whose product is below 2^53 is
    exact. *)
Lemma times_exact_pos (x y : positive) :
  Z.pos (x * y) < 2 ^ 53 ->
  times (ofInteger (Z.pos x)) (ofInteger (Z.pos y)) = ofInteger (Z.pos (x * y)).
Proof.
  intros H.
  assert (Dz : Z.pos (digits2_pos (x * y)) <= 53)
    by (apply digits2_pos_le; lia).
  assert (Dx : Z.pos (digits2_pos x) <= 53).
  { etransitivity; [apply (digits2_pos_mono x (x * y)); nia | exact Dz]. }
  assert (Dy : Z.pos (digits2_pos y) <= 53).
  { etransitivity; [apply (digits2_pos_mono y (x * y)); nia | exact Dz]. }
  destruct (ofInteger_canonical x Dx) as (mx & -> & Hmx & Vx).
  destruct (ofInteger_canonical y Dy) as (my & -> & Hmy & Vy).
  destruct (ofInteger_canonical (x * y) Dz) as (mz & -> & Hmz & Vz).
  pose proof (digits2_pos_mul x y) as Dm.
  set (dx := Z.pos (digits2_pos x)) in *.
  set (dy := Z.pos (digits2_pos y)) in *.
  set (dz := Z.pos (digits2_pos (x * y))) in *.
  unfold times, SFmul. cbn [xorb].
  rewrite (round_exact false (mx * my) (dx - 53 + (dy - 53)) mz
             (dz - dx - dy + 53)).
  - f_equal. lia.
  - lia.
  - rewrite Pos2Z.inj_mul, Vx, Vy, Vz, Pos2Z.inj_mul.
    replace (Z.pos x * 2 ^ (53 - dx) * (Z.pos y * 2 ^ (53 - dy)))
      with (Z.pos x * Z.pos y * (2 ^ (53 - dx) * 2 ^ (53 - dy))) by ring.
    rewrite <- Z.pow_add_r by lia.
    replace (Z.pos x * Z.pos y * 2 ^ (53 - dz) * 2 ^ (dz - dx - dy + 53))
      with (Z.pos x * Z.pos y * (2 ^ (53 - dz) * 2 ^ (dz - dx - dy + 53)))
      by ring.
    rewrite <- Z.pow_add_r by lia.
    do 2 f_equal. lia.
  - exact Hmz.
  - lia.
Qed.

(** [binary_round] of a significand and an exponent that stand for a
    positive integer of at most 53 bits is the double of that integer.  The
    integer is [m * 2^e], said with the two sides scaled by [2^k]. *)
Lemma binary_round_exact (m : positive) (e : Z) (z : positive) (k : Z) :
  0 <= k -> 0 <= e + k ->
  Z.pos m * 2 ^ (e + k) = Z.pos z * 2 ^ k ->
  Z.pos (digits2_pos z) <= 53 ->
  binary_round prec emax false m e = ofInteger (Z.pos z).
Proof.
  intros Hk Hek Hv Dz.
  destruct (ofInteger_canonical z Dz) as (mz & -> & Hmz & Vz).
  assert (Dm : Z.pos (digits2_pos m) + e = Z.pos (digits2_pos z)).
  { rewrite !digits2_pos_log2.
    pose proof (Z.log2_mul_pow2 (Z.pos m) (e + k) ltac:(lia) ltac:(lia)) as L1.
    pose proof (Z.log2_mul_pow2 (Z.pos z) k ltac:(lia) ltac:(lia)) as L2.
    rewrite Hv in L1. lia. }
  set (dz := Z.pos (digits2_pos z)) in *.
  unfold binary_round, shl_align.
  unfold fexp at 1 2, SpecFloat.emin, prec, emax.
  replace (Z.max (Z.pos (digits2_pos m) + e - 53) (3 - 1024 - 53))
    with (dz - 53) by lia.
  assert (P : forall a, 0 <= a -> 0 < 2 ^ a)
    by (intros a Ha; apply Z.pow_pos_nonneg; lia).
  destruct (dz - 53 - e) as [|d|d] eqn:Ed;
    change (binary_round_aux 53 1024) with (binary_round_aux prec emax).
  - (* the exponent is the canonical one *)
    rewrite (round_exact false m e mz 0); try lia.
    + f_equal. lia.
    + rewrite Z.pow_0_r, Z.mul_1_r, Vz.
      apply (Z.mul_reg_r _ _ (2 ^ (e + k))); [pose proof (P (e + k)); lia|].
      rewrite Hv, <- Z.mul_assoc, <- Z.pow_add_r by lia.
      do 2 f_equal. lia.
  - (* zeros to shift out *)
    rewrite (round_exact false m e mz (Z.pos d)); try lia.
    + f_equal. lia.
    + rewrite Vz. apply (Z.mul_reg_r _ _ (2 ^ (e + k))); [pose proof (P (e + k)); lia|].
      rewrite Hv, <- !Z.mul_assoc, <- !Z.pow_add_r by lia.
      do 2 f_equal. lia.
  - (* zeros to shift in *)
    rewrite (round_exact false (Pos.iter xO m d) (dz - 53) mz 0); try lia.
    + f_equal. lia.
    + rewrite Z.pow_0_r, Z.mul_1_r, pos_iter_xO, Vz.
      apply (Z.mul_reg_r _ _ (2 ^ (e + k))); [pose proof (P (e + k)); lia|].
      rewrite <- (Z.mul_assoc (Z.pos z)), <- Z.pow_add_r by lia.
      replace (53 - dz + (e + k)) with (Z.pos d + k) by lia.
      rewrite (Z.pow_add_r 2 (Z.pos d) k) by lia.
      transitivity (Z.pos m * 2 ^ (e + k) * 2 ^ Z.pos d);
        [ring | rewrite Hv; ring].
Qed.

Lemma shl_align_fst (m : positive) (e e' : Z) :
  e' <= e -> Z.pos (fst (shl_align m e e')) = Z.pos m * 2 ^ (e - e').
Proof.
  intros H. unfold shl_align. destruct (e' - e) as [|d|d] eqn:Ed; simpl.
  - replace (e - e') with 0 by lia. rewrite Z.pow_0_r. lia.
  - exfalso. lia.
  - rewrite pos_iter_xO. replace (e - e') with (Z.pos d) by lia. reflexivity.
Qed.

(** The sum of two positive integers whose sum is below 2^53 is exact. *)
Lemma plus_exact_pos (x y : positive) :
  Z.pos (x + y) < 2 ^ 53 ->
  plus (ofInteger (Z.pos x)) (ofInteger (Z.pos y)) = ofInteger (Z.pos (x + y)).
Proof.
  intros H.
  assert (Dz : Z.pos (digits2_pos (x + y)) <= 53)
    by (apply digits2_pos_le; lia).
  assert (Dx : Z.pos (digits2_pos x) <= 53).
  { etransitivity; [apply (digits2_pos_mono x (x + y)); lia | exact Dz]. }
  assert (Dy : Z.pos (digits2_pos y) <= 53).
  { etransitivity; [apply (digits2_pos_mono y (x + y)); lia | exact Dz]. }
  destruct (ofInteger_canonical x Dx) as (mx & -> & Hmx & Vx).
  destruct (ofInteger_canonical y Dy) as (my & -> & Hmy & Vy).
  set (ex := Z.pos (digits2_pos x) - 53) in *.
  set (ey := Z.pos (digits2_pos y) - 53) in *.
  unfold plus, SFadd, binary_normalize. cbn [cond_Zopp Z.add].
  pose proof (shl_align_fst mx ex (Z.min ex ey) ltac:(lia)) as Ax.
  pose proof (shl_align_fst my ey (Z.min ex ey) ltac:(lia)) as Ay.
  apply (binary_round_exact _ _ (x + y) (- Z.min ex ey)); try lia.
  rewrite !Pos2Z.inj_add, Ax, Ay, Vx, Vy.
  replace (Z.min ex ey + - Z.min ex ey) with 0 by lia.
  rewrite Z.pow_0_r, Z.mul_1_r, Z.mul_add_distr_r.
  rewrite <- !Z.mul_assoc, <- !Z.pow_add_r by lia.
  f_equal; do 2 f_equal; lia.
Qed.

(** Two positive integers of at most 53 bits compare as their doubles. *)
Lemma SFcompare_exact_pos (x y : positive) :
  Z.pos (digits2_pos x) <= 53 -> Z.pos (digits2_pos y) <= 53 ->
  SFcompare (ofInteger (Z.pos x)) (ofInteger (Z.pos y))
  = Some (Z.pos x ?= Z.pos y).
Proof.
  intros Dx Dy.
  destruct (ofInteger_canonical x Dx) as (mx & -> & Hmx & Vx).
  destruct (ofInteger_canonical y Dy) as (my & -> & Hmy & Vy).
  pose proof (digits2_pos_bounds x) as Bx.
  pose proof (digits2_pos_bounds y) as By.
  set (dx := Z.pos (digits2_pos x)) in *.
  set (dy := Z.pos (digits2_pos y)) in *.
  cbn [SFcompare]. f_equal.
  destruct (Z.compare_spec (dx - 53) (dy - 53)) as [E | L | L].
  - change (Pos.compare_cont Eq mx my) with (Z.pos mx ?= Z.pos my).
    rewrite Vx, Vy. replace dy with dx by lia.
    assert (C : 0 < 2 ^ (53 - dx)) by (apply Z.pow_pos_nonneg; lia).
    destruct (Z.compare_spec (Z.pos x) (Z.pos y)) as [E' | L | L].
    + rewrite E'. apply Z.compare_refl.
    + apply Z.compare_lt_iff. nia.
    + apply Z.compare_gt_iff. nia.
  - symmetry. apply Z.compare_lt_iff.
    pose proof (Z.pow_le_mono_r 2 dx (dy - 1) ltac:(lia) ltac:(lia)). lia.
  - symmetry. apply Z.compare_gt_iff.
    pose proof (Z.pow_le_mono_r 2 dy (dx - 1) ltac:(lia) ltac:(lia)). lia.
Qed.

Lemma times_exact (x y : Z) :
  0 <= x -> 0 < y < 2 ^ 53 -> x * y < 2 ^ 53 ->
  times (ofInteger x) (ofInteger y) = ofInteger (x * y).
Proof.
  intros Hx Hy H. destruct y as [|y|y]; try lia.
  destruct x as [|x|x]; try lia.
  - destruct (ofInteger_canonical y ltac:(apply digits2_pos_le; lia))
      as (my & -> & _). reflexivity.
  - apply times_exact_pos. exact H.
Qed.

Lemma plus_exact (x y : Z) :
  0 <= x -> 0 <= y -> x + y < 2 ^ 53 ->
  plus (ofInteger x) (ofInteger y) = ofInteger (x + y).
Proof.
  intros Hx Hy H. destruct x as [|x|x]; try lia; destruct y as [|y|y]; try lia.
  - reflexivity.
  - destruct (ofInteger_canonical y ltac:(apply digits2_pos_le; lia))
      as (my & E & _). simpl (0 + Z.pos y). rewrite E. reflexivity.
  - destruct (ofInteger_canonical x ltac:(apply digits2_pos_le; lia))
      as (mx & E & _). rewrite Z.add_0_r, E. reflexivity.
  - apply plus_exact_pos. exact H.
Qed.

Lemma SFcompare_exact (x y : Z) :
  0 <= x < 2 ^ 53 -> 0 <= y < 2 ^ 53 ->
  SFcompare (ofInteger x) (ofInteger y) = Some (x ?= y).
Proof.
  intros Hx Hy. destruct x as [|x|x]; try lia; destruct y as [|y|y]; try lia.
  - reflexivity.
  - destruct (ofInteger_canonical y ltac:(apply digits2_pos_le; lia))
      as (my & -> & _). reflexivity.
  - destruct (ofInteger_canonical x ltac:(apply digits2_pos_le; lia))
      as (mx & -> & _). reflexivity.
  - apply SFcompare_exact_pos; apply digits2_pos_le; lia.
Qed.

(** ** [Number.parseInt], the sign *)

(** Without a hyphen in it, a string is parsed with the sign +. *)
Lemma parseInt10_unsigned (s : string) :
  ~ In "-"%char (units s) ->
  exists rest,
    parseInt10 s
    = match digitsPrefix rest with
      | "" => NaN
      | String a ds =>
          if digitsValue 0 (String a ds) =? 0 then S754_zero false
          else ofInteger (digitsValue 0 (String a ds))
      end.
Proof.
  intros Hs. unfold parseInt10.
  assert (Ht : ~ In "-"%char (units (trimStart s)))
    by (intros H; apply Hs, trimStart_units, H).
  destruct (trimStart s) as [|c r]; [now exists ""|].
  destruct (Ascii.eqb_spec c "-") as [-> | Hne]; [exfalso; apply Ht; now left|].
  destruct (Ascii.eqb_spec c "+") as [-> | Hne'].
  - exists r. destruct (digitsPrefix r); [reflexivity|].
    now rewrite Z.mul_1_l.
  - exists (String c r).
    transitivity
      (match digitsPrefix (String c r) with
       | "" => NaN
       | String a ds =>
           if digitsValue 0 (String a ds) =? 0 then S754_zero (1 <? 0)
           else ofInteger (1 * digitsValue 0 (String a ds))
       end).
    + clear -Hne Hne'.
      destruct c as [[] [] [] [] [] [] [] []]; try reflexivity; congruence.
    + destruct (digitsPrefix (String c r)); [reflexivity|].
      now rewrite Z.mul_1_l.
Qed.

(** Without a hyphen in it, a string parses to NaN, to +Infinity, or to a
    number that holds an integer and is not negative. *)
Lemma parseInt10_nonneg (s : string) :
  ~ In "-"%char (units s) -> isNaN (parseInt10 s) = false ->
  nonNegative (parseInt10 s) /\
  (parseInt10 s = Infinity \/
   exists n, 0 <= n /\ integerValue (parseInt10 s) = Some n).
Proof.
  intros Hs. destruct (parseInt10_unsigned s Hs) as (rest & ->).
  pose proof (digitsPrefix_digits rest) as Hd.
  destruct (digitsPrefix rest) as [|a ds]; [discriminate|]. intros _.
  pose proof (digitsValue_nonneg (String a ds) 0 ltac:(lia) Hd) as Hv.
  destruct (Z.eqb_spec (digitsValue 0 (String a ds)) 0) as [E | E].
  - split; [reflexivity | right; exists 0; split; [lia | reflexivity]].
  - split; [now apply ofInteger_nonNegative|].
    destruct (digitsValue 0 (String a ds)) as [|p|p]; [lia | | lia].
    apply ofInteger_pos.
Qed.

(** ** [Version.from], step by step *)

Lemma from_fromOriginal (input : string) :
  Version.from input = fromOriginal input (toLowerCase (trim input)).
Proof. reflexivity. Qed.

Lemma fromOriginal_invalid (input original : string) :
  allUnits Version.acceptedRange original = false ->
  fromOriginal input original = Throw (Version.invalidVersion input).
Proof.
  intros H. unfold fromOriginal, replaceClassRuns.
  now rewrite dropUnits_length, H.
Qed.

Lemma fromOriginal_valid (input original : string) :
  allUnits Version.acceptedRange original = true ->
  fromOriginal input original
  = fromParts input (split "." (replaceUnit "-" "." original)).
Proof.
  intros H. unfold fromOriginal, replaceClassRuns.
  now rewrite dropUnits_length, H.
Qed.

Lemma allUnits_accepted_toLowerCase (s : string) :
  allUnits Version.acceptedRange (toLowerCase s)
  = allUnits Version.acceptedRange s.
Proof.
  unfold toLowerCase. rewrite allUnits_mapUnits.
  apply allUnits_ext, acceptedRange_toLowerCaseUnit.
Qed.

Lemma toLowerCase_accepted (s : string) :
  allUnits Version.acceptedRange s = true -> toLowerCase s = s.
Proof. apply mapUnits_id_on, toLowerCaseUnit_accepted. Qed.

Lemma containsOther_iff (s : string) :
  containsOther s <-> allUnits Version.acceptedRange s = false.
Proof.
  rewrite allUnits_false_iff. unfold containsOther.
  split; intros (c & Hc & H); exists c; split; auto; now apply acceptedRange_other.
Qed.

Lemma not_containsOther_iff (s : string) :
  ~ containsOther s <-> allUnits Version.acceptedRange s = true.
Proof.
  rewrite containsOther_iff. destruct (allUnits Version.acceptedRange s); split; congruence.
Qed.

Lemma from_invalid (input : string) :
  containsOther (trim input) ->
  Version.from input = Throw (Version.invalidVersion input).
Proof.
  intros H. rewrite from_fromOriginal. apply fromOriginal_invalid.
  rewrite allUnits_accepted_toLowerCase. now apply containsOther_iff.
Qed.

Lemma from_valid (input : string) :
  ~ containsOther (trim input) ->
  Version.from input = fromParts input (segments input).
Proof.
  intros H. apply not_containsOther_iff in H.
  rewrite from_fromOriginal, fromOriginal_valid
    by now rewrite allUnits_accepted_toLowerCase.
  now rewrite toLowerCase_accepted.
Qed.

Lemma containsOther_dec (s : string) : containsOther s \/ ~ containsOther s.
Proof.
  rewrite not_containsOther_iff, containsOther_iff.
  destruct (allUnits Version.acceptedRange s); auto.
Qed.

(** [fromParts] throws exactly when a required segment fails to parse. *)
Lemma fromParts_throws_iff (input : string) (parts : list string) :
  fromParts input parts = Throw (Version.invalidVersion input) <->
  exists i seg, (i < Nat.min 3 (List.length parts))%nat /\
                nth_error parts i = Some seg /\ failsToParse seg.
Proof.
  unfold fromParts, failsToParse.
  destruct parts as [|a [|b [|c rest]]]; simpl.
  - split; [discriminate | intros (i & seg & Hi & _); lia].
  - destruct (isNaN (parseInt10 a)) eqn:Ea; simpl;
      split; try discriminate; try reflexivity.
    + intros _. exists 0%nat, a. repeat split; auto.
    + intros (i & seg & Hi & Hn & Hp).
      destruct i as [|i]; [|lia]. simpl in Hn. injection Hn as <-.
      congruence.
  - destruct (isNaN (parseInt10 a)) eqn:Ea;
      [|destruct (isNaN (parseInt10 b)) eqn:Eb]; simpl;
      split; try discriminate; try reflexivity.
    + intros _. exists 0%nat, a. repeat split; auto.
    + intros _. exists 1%nat, b. repeat split; auto.
    + intros (i & seg & Hi & Hn & Hp).
      destruct i as [|[|i]]; [| |lia]; simpl in Hn; injection Hn as <-;
        congruence.
  - destruct (isNaN (parseInt10 a)) eqn:Ea;
      [|destruct (isNaN (parseInt10 b)) eqn:Eb;
        [|destruct (isNaN (parseInt10 c)) eqn:Ec]]; simpl;
      split; try discriminate; try reflexivity.
    + intros _. exists 0%nat, a. repeat split; auto; lia.
    + intros _. exists 1%nat, b. repeat split; auto; lia.
    + intros _. exists 2%nat, c. repeat split; auto; lia.
    + intros (i & seg & Hi & Hn & Hp).
      destruct i as [|[|[|i]]]; [| | |lia]; simpl in Hn; injection Hn as <-;
        congruence.
Qed.

Lemma fromParts_cases (input : string) (parts : list string) :
  fromParts input parts = Throw (Version.invalidVersion input) \/
  exists v, fromParts input parts = Return v.
Proof.
  unfold fromParts.
  destruct (isNaN _ || isNaN _ || isNaN _); eauto.
Qed.

Lemma from_cases (input : string) :
  Version.from input = Throw (Version.invalidVersion input) \/
  exists v, Version.from input = Return v.
Proof.
  destruct (containsOther_dec (trim input)) as [H | H].
  - left. now apply from_invalid.
  - rewrite (from_valid _ H). apply fromParts_cases.
Qed.

(** The fields of a returned Version, read off the segments. *)
Lemma from_Return_segments (input : string) (v : Version.Version) :
  Version.from input = Return v ->
  (exists seg, nth_error (segments input) 0 = Some seg /\
               parseInt10 seg = Version.major v) /\
  match nth_error (segments input) 1 with
  | Some seg => parseInt10 seg = Version.minor v
  | None => Version.minor v = ofInteger 0
  end /\
  match nth_error (segments input) 2 with
  | Some seg => parseInt10 seg = Version.patch v
  | None => Version.patch v = ofInteger 0
  end.
Proof.
  intros E.
  destruct (containsOther_dec (trim input)) as [H | H].
  { rewrite (from_invalid _ H) in E. discriminate. }
  rewrite (from_valid _ H) in E.
  pose proof (split_nonempty "." (replaceUnit "-" "." (trim input))) as Hne.
  fold (segments input) in Hne.
  unfold fromParts in E.
  destruct (segments input) as [|a [|b [|c rest]]]; [congruence| | |];
    simpl in *;
    match type of E with
    | (if ?c then _ else _) = _ => destruct c; try discriminate
    end;
    injection E as <-; simpl; eauto.
Qed.

(** A returned Version has no NaN field. *)
Lemma from_Return_not_NaN (input : string) (v : Version.Version) :
  Version.from input = Return v ->
  isNaN (Version.major v) = false /\ isNaN (Version.minor v) = false /\
  isNaN (Version.patch v) = false.
Proof.
  intros E.
  destruct (containsOther_dec (trim input)) as [H | H].
  { rewrite (from_invalid _ H) in E. discriminate. }
  rewrite (from_valid _ H) in E. unfold fromParts in E.
  destruct (isNaN _ || isNaN _ || isNaN _) eqn:N; [discriminate|].
  injection E as <-. simpl.
  apply orb_false_iff in N. destruct N as [N Hc].
  apply orb_false_iff in N. tauto.
Qed.

(** No segment holds a hyphen. *)
Lemma segments_no_hyphen (input seg : string) (i : nat) :
  nth_error (segments input) i = Some seg -> ~ In "-"%char (units seg).
Proof.
  intros Hn Hin. apply nth_error_In in Hn.
  pose proof (split_units _ _ _ _ Hn Hin) as Hu.
  apply mapUnits_units in Hu. destruct Hu as (d & _ & Hd).
  simpl in Hd. destruct (Ascii.eqb_spec d "-"); congruence.
Qed.

(** ** [Version.from]: when it throws *)

(** C1. [Version.from(input)] throws the error "Invalid version string: "
    followed by the input as it was given exactly when the trimmed input
    contains a character other than a digit, a period or a hyphen, or one of
    the first min(3, number of segments) segments of the trimmed, normalised
    and split input fails to parse as a base-10 integer; in every other case
    it returns a Version.  An empty or white-space-only input throws. *)
Theorem from_throws_iff (input : string) :
  (Version.from input = Throw (Version.invalidVersion input) <->
   containsOther (trim input) \/ requiredSegmentFails input) /\
  ((exists v, Version.from input = Return v) <->
   ~ (containsOther (trim input) \/ requiredSegmentFails input)) /\
  (whiteSpaceOnly input ->
   Version.from input = Throw (Version.invalidVersion input)).
Proof.
  assert (Hiff : Version.from input = Throw (Version.invalidVersion input) <->
                 containsOther (trim input) \/ requiredSegmentFails input).
  { destruct (containsOther_dec (trim input)) as [H | H].
    - rewrite (from_invalid _ H). tauto.
    - rewrite (from_valid _ H), fromParts_throws_iff.
      unfold requiredSegmentFails. tauto. }
  split; [exact Hiff | split].
  - rewrite <- Hiff. destruct (from_cases input) as [E | (v & E)]; rewrite E.
    + split; [intros (w & Hw); discriminate | intros H; now destruct H].
    + split; [intros _; discriminate | intros _; now exists v].
  - intros Hws. apply Hiff. right.
    exists 0%nat, "". unfold requiredSegmentFails, segments.
    rewrite (trim_whiteSpaceOnly _ Hws). simpl.
    repeat split; auto.
Qed.

Lemma from_throws_iff_witness :
  whiteSpaceOnly "  " /\
  Version.from "  " = Throw (Version.invalidVersion "  ").
Proof.
  assert (H : whiteSpaceOnly "  ").
  { intros c [<- | [<- | []]]; reflexivity. }
  split; [exact H | exact (proj2 (proj2 (from_throws_iff "  ")) H)].
Defined.

(** ** [Version.from]: what it returns *)

(** C2. When [Version.from] returns, the first segment of the trimmed,
    normalised and split input parses to the major field, the second, if
    there is one, to the minor field, the third, if there is one, to the
    patch field, and a missing segment gives 0.  "13.0.4" and "13-0-4" give
    13.0.4 and "13" gives 13.0.0. *)
Theorem from_fields :
  (forall (input : string) (v : Version.Version),
      Version.from input = Return v ->
      let parts := segments input in
      (exists seg, nth_error parts 0 = Some seg /\
                   parseInt10 seg = Version.major v) /\
      match nth_error parts 1 with
      | Some seg => parseInt10 seg = Version.minor v
      | None => Version.minor v = ofInteger 0
      end /\
      match nth_error parts 2 with
      | Some seg => parseInt10 seg = Version.patch v
      | None => Version.patch v = ofInteger 0
      end) /\
  Version.from "13.0.4"
  = Return (Version.mkVersion (ofInteger 13) (ofInteger 0) (ofInteger 4)) /\
  Version.from "13-0-4"
  = Return (Version.mkVersion (ofInteger 13) (ofInteger 0) (ofInteger 4)) /\
  Version.from "13"
  = Return (Version.mkVersion (ofInteger 13) (ofInteger 0) (ofInteger 0)) /\
  integerValue (ofInteger 13) = Some 13 /\
  integerValue (ofInteger 0) = Some 0 /\
  integerValue (ofInteger 4) = Some 4.
Proof.
  split; [|repeat split; reflexivity].
  intros input v E. exact (from_Return_segments input v E).
Qed.

Lemma from_fields_witness :
  Version.from " 7-1.12.5 "
  = Return (Version.mkVersion (ofInteger 7) (ofInteger 1) (ofInteger 12)) /\
  segments " 7-1.12.5 " = ["7"; "1"; "12"; "5"] /\
  parseInt10 "7" = ofInteger 7 /\ parseInt10 "1" = ofInteger 1 /\
  parseInt10 "12" = ofInteger 12.
Proof.
  split; [reflexivity | split; [reflexivity|]].
  destruct (proj1 from_fields " 7-1.12.5 "
              (Version.mkVersion (ofInteger 7) (ofInteger 1) (ofInteger 12))
              eq_refl)
    as (_ & H1 & H2).
  split; [reflexivity | split; [exact H1 | exact H2]].
Defined.

(** C4, as the code has it.  The code tests the three parsed numbers for
    NaN only, and the number parsed from a run of digits too long for a
    double is +Infinity.  Every Version that [Version.from] returns has a
    major, a minor and a patch field that are not NaN and not negative, and
    each of them holds an integer or is +Infinity.  (The fields are
    [readonly] and a record of the embedding is a value: nothing changes
    them afterwards.) *)
Theorem from_nonnegative (input : string) (v : Version.Version) :
  Version.from input = Return v ->
  forall field,
    field = Version.major v \/ field = Version.minor v \/
    field = Version.patch v ->
    nonNegative field /\
    (field = Infinity \/ exists n, 0 <= n /\ integerValue field = Some n).
Proof.
  intros E.
  destruct (from_Return_segments input v E) as ((a & Ha & Pa) & Hb & Hc).
  destruct (from_Return_not_NaN input v E) as (Na & Nb & Nc).
  assert (Z0 : nonNegative (ofInteger 0) /\
               (ofInteger 0 = Infinity \/
                exists n, 0 <= n /\ integerValue (ofInteger 0) = Some n)).
  { split; [reflexivity | right; exists 0; split; [lia | reflexivity]]. }
  intros field [-> | [-> | ->]].
  - rewrite <- Pa in *.
    apply parseInt10_nonneg; [eapply segments_no_hyphen|]; eauto.
  - destruct (nth_error (segments input) 1) eqn:E1; [|now rewrite Hb].
    rewrite <- Hb in *.
    apply parseInt10_nonneg; [eapply segments_no_hyphen|]; eauto.
  - destruct (nth_error (segments input) 2) eqn:E2; [|now rewrite Hc].
    rewrite <- Hc in *.
    apply parseInt10_nonneg; [eapply segments_no_hyphen|]; eauto.
Qed.

Lemma from_nonnegative_witness :
  Version.from "13-0.4"
  = Return (Version.mkVersion (ofInteger 13) (ofInteger 0) (ofInteger 4)) /\
  nonNegative (ofInteger 4) /\
  (ofInteger 4 = Infinity \/
   exists n, 0 <= n /\ integerValue (ofInteger 4) = Some n).
Proof.
  split; [reflexivity|].
  exact (from_nonnegative "13-0.4"
           (Version.mkVersion (ofInteger 13) (ofInteger 0) (ofInteger 4))
           eq_refl (ofInteger 4) (or_intror (or_intror eq_refl))).
Defined.

(** C4, as it is written, fails: a run of 400 nines is accepted, and the
    major it gives is +Infinity, which is no integer. *)
Lemma from_infinite_major :
  Version.from (repeatUnit "9" 400)
  = Return (Version.mkVersion Infinity (ofInteger 0) (ofInteger 0)) /\
  integerValue Infinity = None.
Proof. split; [vm_compute; reflexivity | reflexivity]. Qed.

(** ** [Version.from]: segments after the third, and the two separators *)

(** [fromParts] looks at the first three segments only. *)
Lemma fromParts_firstn (i1 i2 : string) (p1 p2 : list string) :
  firstn 3 p1 = firstn 3 p2 ->
  sameOutcome (fromParts i1 p1) (fromParts i2 p2).
Proof.
  intros H. unfold fromParts.
  destruct p1 as [|a1 [|b1 [|c1 r1]]]; destruct p2 as [|a2 [|b2 [|c2 r2]]];
    simpl in H; try discriminate; inversion H; subst; simpl.
  - repeat split.
  - destruct (isNaN (parseInt10 a2)); simpl; auto.
  - destruct (isNaN (parseInt10 a2)); [simpl; auto|].
    destruct (isNaN (parseInt10 b2)); simpl; auto.
  - destruct (isNaN (parseInt10 a2)); [simpl; auto|].
    destruct (isNaN (parseInt10 b2)); [simpl; auto|].
    destruct (isNaN (parseInt10 c2)); simpl; auto.
Qed.

(** C5, as the code has it.  The character check covers the whole trimmed
    input, so a segment after the third is validated; it is not parsed and
    not used.  For two inputs that hold only digits, periods and hyphens
    once trimmed and agree on their first three segments, [Version.from]
    ends alike: both throw, or both return the same three fields. *)
Theorem from_ignores_extra_segments (s1 s2 : string) :
  ~ containsOther (trim s1) -> ~ containsOther (trim s2) ->
  firstn 3 (segments s1) = firstn 3 (segments s2) ->
  sameOutcome (Version.from s1) (Version.from s2).
Proof.
  intros H1 H2 H.
  rewrite (from_valid _ H1), (from_valid _ H2).
  now apply fromParts_firstn.
Qed.

Lemma from_ignores_extra_segments_witness :
  firstn 3 (segments "1.2.3.4") = firstn 3 (segments "1.2.3..77-") /\
  sameOutcome (Version.from "1.2.3.4") (Version.from "1.2.3..77-").
Proof.
  split; [reflexivity|].
  apply (from_ignores_extra_segments "1.2.3.4" "1.2.3..77-").
  - apply not_containsOther_iff. reflexivity.
  - apply not_containsOther_iff. reflexivity.
  - reflexivity.
Defined.

(** C5, as it is written, fails: "1.2.3.4" and "1.2.3.x" have the same first
    three segments, the first is accepted and the second is refused for the
    letter in its fourth segment. *)
Lemma from_validates_extra_segments :
  firstn 3 (segments "1.2.3.4") = firstn 3 (segments "1.2.3.x") /\
  Version.from "1.2.3.4"
  = Return (Version.mkVersion (ofInteger 1) (ofInteger 2) (ofInteger 3)) /\
  Version.from "1.2.3.x" = Throw (Version.invalidVersion "1.2.3.x") /\
  ~ sameOutcome (Version.from "1.2.3.4") (Version.from "1.2.3.x").
Proof.
  repeat split; try reflexivity. intros H; exact H.
Qed.

(** C6. Hyphens and periods are interchangeable: [Version.from(s)] and
    [Version.from] of [s] with every hyphen replaced by a period both throw,
    or both return the same major, minor and patch. *)
Theorem from_hyphen_period (s : string) :
  sameOutcome (Version.from s) (Version.from (replaceUnit "-" "." s)).
Proof.
  rewrite !from_fromOriginal, replaceUnit_hyphen.
  rewrite (trim_mapUnits _ _ isWhiteSpace_hyphenToPeriod).
  assert (El : forall t, toLowerCase (mapUnits hyphenToPeriod t)
                         = mapUnits hyphenToPeriod (toLowerCase t)).
  { intros t. unfold toLowerCase. rewrite !mapUnits_mapUnits.
    apply mapUnits_ext, toLowerCaseUnit_hyphenToPeriod. }
  rewrite El. set (original := toLowerCase (trim s)).
  assert (Ea : allUnits Version.acceptedRange (mapUnits hyphenToPeriod original)
               = allUnits Version.acceptedRange original).
  { rewrite allUnits_mapUnits. apply allUnits_ext, acceptedRange_hyphenToPeriod. }
  destruct (allUnits Version.acceptedRange original) eqn:E.
  - rewrite !fromOriginal_valid by congruence.
    apply fromParts_firstn. rewrite !replaceUnit_hyphen, mapUnits_mapUnits.
    now rewrite (mapUnits_ext _ hyphenToPeriod original hyphenToPeriod_idem).
  - rewrite !fromOriginal_invalid by congruence. exact I.
Qed.

(** ** [Version.compare] and its two predicates *)

(** [compare] read off the comparison of the two scalars. *)
Lemma compare_SFcompare (a b : Version.Version) :
  Version.compare a b
  = match SFcompare (scalar a) (scalar b) with
    | Some Eq => 0
    | Some Lt => -1
    | _ => 1
    end.
Proof.
  unfold Version.compare, strictEquals, lessThan, SFeqb, SFltb.
  fold (scalar a) (scalar b).
  destruct (SFcompare (scalar a) (scalar b)) as [[]|]; reflexivity.
Qed.

(** ** Scalars of versions whose fields are not negative *)

Lemma nonNegative_not_NaN (x : number) : nonNegative x -> isNaN x = false.
Proof. destruct x; simpl; tauto. Qed.

Lemma times_nonNegative (x : number) (my : positive) (ey : Z) :
  nonNegative x -> nonNegative (times x (S754_finite false my ey)).
Proof.
  destruct x as [s|s| |s m e]; cbn [nonNegative]; try tauto; intros ->;
    try reflexivity.
  unfold times, SFmul. cbn [xorb].
  pose proof (binary_round_aux_signed false (Z.pos (m * my)) (e + ey)
                loc_Exact ltac:(lia)) as H.
  destruct (binary_round_aux prec emax false (Z.pos (m * my)) (e + ey) loc_Exact);
    cbn [nonNegative]; tauto.
Qed.

Lemma plus_nonNegative (x y : number) :
  nonNegative x -> nonNegative y -> nonNegative (plus x y).
Proof.
  destruct x as [sx|sx| |sx mx ex]; destruct y as [sy|sy| |sy my ey];
    cbn [nonNegative]; try tauto; intros -> ->; try reflexivity.
  unfold plus, SFadd, binary_normalize. cbn [cond_Zopp Z.add].
  pose proof (binary_round_signed false
                (fst (shl_align mx ex (Z.min ex ey))
                 + fst (shl_align my ey (Z.min ex ey)))
                (Z.min ex ey)) as H.
  destruct (binary_round prec emax false _ _); exact H.
Qed.

Lemma scalar_nonNegative (v : Version.Version) :
  nonNegative (Version.major v) -> nonNegative (Version.minor v) ->
  nonNegative (Version.patch v) -> nonNegative (scalar v).
Proof.
  intros Ha Hb Hc. unfold scalar.
  apply plus_nonNegative; [apply plus_nonNegative|exact Hc].
  - change (ofInteger 100) with (S754_finite false 7036874417766400 (-46)).
    now apply times_nonNegative.
  - change (ofInteger 10) with (S754_finite false 5629499534213120 (-49)).
    now apply times_nonNegative.
Qed.

Lemma compare_key (a b : Version.Version) :
  isNaN (scalar a) = false -> isNaN (scalar b) = false ->
  Version.compare a b
  = match lex3 (orderKey (scalar a)) (orderKey (scalar b)) with
    | Eq => 0
    | Lt => -1
    | Gt => 1
    end.
Proof.
  intros Ha Hb. rewrite compare_SFcompare, (SFcompare_key _ _ Ha Hb).
  destruct (lex3 _ _); reflexivity.
Qed.

Lemma compare_NaN (a b : Version.Version) :
  isNaN (scalar a) = true \/ isNaN (scalar b) = true ->
  Version.compare a b = 1.
Proof. intros H. now rewrite compare_SFcompare, (SFcompare_NaN _ _ H). Qed.

Lemma from_Return_nonNegative (input : string) (v : Version.Version) :
  Version.from input = Return v ->
  nonNegative (Version.major v) /\ nonNegative (Version.minor v) /\
  nonNegative (Version.patch v).
Proof.
  intros E.
  destruct (from_Return_segments input v E) as ((a & Ha & Pa) & Hb & Hc).
  destruct (from_Return_not_NaN input v E) as (Na & Nb & Nc).
  split; [|split].
  - rewrite <- Pa in *.
    apply parseInt10_nonneg; [eapply segments_no_hyphen|]; eauto.
  - destruct (nth_error (segments input) 1) eqn:E1; [|now rewrite Hb].
    rewrite <- Hb in *.
    apply parseInt10_nonneg; [eapply segments_no_hyphen|]; eauto.
  - destruct (nth_error (segments input) 2) eqn:E2; [|now rewrite Hc].
    rewrite <- Hc in *.
    apply parseInt10_nonneg; [eapply segments_no_hyphen|]; eauto.
Qed.

(** The scalar of a version that [Version.from] returned is not NaN. *)
Lemma from_scalar_not_NaN (input : string) (v : Version.Version) :
  Version.from input = Return v -> isNaN (scalar v) = false.
Proof.
  intros E. destruct (from_Return_nonNegative input v E) as (Ha & Hb & Hc).
  now apply nonNegative_not_NaN, scalar_nonNegative.
Qed.

(** The scalar of a version with small integer fields is computed
    exactly. *)
Lemma scalar_exact (ma mi pa : Z) :
  0 <= ma -> 0 <= mi -> 0 <= pa -> ma * 100 + mi * 10 + pa < 2 ^ 53 ->
  scalar (versionOf ma mi pa) = ofInteger (ma * 100 + mi * 10 + pa).
Proof.
  intros Ha Hi Hp H. unfold scalar, versionOf.
  cbn [Version.major Version.minor Version.patch].
  assert (B : 2 ^ 53 = 9007199254740992) by reflexivity.
  rewrite (times_exact ma 100), (times_exact mi 10) by lia.
  rewrite !plus_exact by lia. reflexivity.
Qed.

Lemma compare_exact (ma1 mi1 pa1 ma2 mi2 pa2 : Z) :
  0 <= ma1 -> 0 <= mi1 -> 0 <= pa1 -> ma1 * 100 + mi1 * 10 + pa1 < 2 ^ 53 ->
  0 <= ma2 -> 0 <= mi2 -> 0 <= pa2 -> ma2 * 100 + mi2 * 10 + pa2 < 2 ^ 53 ->
  Version.compare (versionOf ma1 mi1 pa1) (versionOf ma2 mi2 pa2)
  = threeWay (ma1 * 100 + mi1 * 10 + pa1) (ma2 * 100 + mi2 * 10 + pa2).
Proof.
  intros. rewrite compare_SFcompare, !scalar_exact by assumption.
  rewrite SFcompare_exact by lia. unfold threeWay.
  destruct (_ ?= _); reflexivity.
Qed.

(** C3, as the code has it.  The scalars major*100 + minor*10 + patch are
    computed in doubles, every product and every sum rounded.  When neither
    computed scalar is NaN, [a.compare(b)] is their three-way comparison: -1
    when the scalar of [a] is smaller, 0 when the two are equal, 1 when it
    is larger; when one is NaN it is 1.  For fields that are integers, not
    negative, with exact scalars below 2^53, the computed scalars are the
    exact ones and [compare] is the three-way comparison of the exact
    scalars.  The versions parsed from "1.10.0" and "2.0.0" both have
    scalar 200 and compare to 0. *)
Theorem compare_scalar :
  (forall a b : Version.Version,
      isNaN (scalar a) = false -> isNaN (scalar b) = false ->
      numberThreeWay (scalar a) (scalar b) = Some (Version.compare a b) /\
      (Version.compare a b = -1 <-> lessThan (scalar a) (scalar b) = true) /\
      (Version.compare a b = 0 <-> strictEquals (scalar a) (scalar b) = true) /\
      (Version.compare a b = 1 <-> lessThan (scalar b) (scalar a) = true)) /\
  (forall a b : Version.Version,
      isNaN (scalar a) = true \/ isNaN (scalar b) = true ->
      Version.compare a b = 1) /\
  (forall ma1 mi1 pa1 ma2 mi2 pa2 : Z,
      0 <= ma1 -> 0 <= mi1 -> 0 <= pa1 ->
      ma1 * 100 + mi1 * 10 + pa1 < 2 ^ 53 ->
      0 <= ma2 -> 0 <= mi2 -> 0 <= pa2 ->
      ma2 * 100 + mi2 * 10 + pa2 < 2 ^ 53 ->
      scalar (versionOf ma1 mi1 pa1)
      = ofInteger (ma1 * 100 + mi1 * 10 + pa1) /\
      integerValue (scalar (versionOf ma1 mi1 pa1))
      = Some (ma1 * 100 + mi1 * 10 + pa1) /\
      Version.compare (versionOf ma1 mi1 pa1) (versionOf ma2 mi2 pa2)
      = threeWay (ma1 * 100 + mi1 * 10 + pa1)
                 (ma2 * 100 + mi2 * 10 + pa2)) /\
  Version.from "1.10.0" = Return (versionOf 1 10 0) /\
  Version.from "2.0.0" = Return (versionOf 2 0 0) /\
  scalar (versionOf 1 10 0) = ofInteger 200 /\
  scalar (versionOf 2 0 0) = ofInteger 200 /\
  Version.compare (versionOf 1 10 0) (versionOf 2 0 0) = 0.
Proof.
  split; [|split; [|split]].
  - intros a b Ha Hb.
    rewrite (compare_key a b Ha Hb).
    unfold numberThreeWay, lessThan, strictEquals, SFltb, SFeqb.
    rewrite (SFcompare_key _ _ Ha Hb), (SFcompare_key _ _ Hb Ha).
    rewrite (lex3_antisym (orderKey (scalar a)) (orderKey (scalar b))).
    destruct (lex3 (orderKey (scalar a)) (orderKey (scalar b))); simpl;
      repeat split; intros; try reflexivity; try discriminate.
  - exact compare_NaN.
  - intros. split; [|split].
    + now apply scalar_exact.
    + rewrite scalar_exact by assumption. apply ofInteger_exact.
      split; [nia | assumption].
    + now apply compare_exact.
  - repeat split; vm_compute; reflexivity.
Qed.

Lemma compare_scalar_witness :
  numberThreeWay (ofInteger 1304) (ofInteger 1310) = Some (-1) /\
  Version.compare
    (Version.mkVersion (ofInteger 13) (ofInteger 0) (ofInteger 4))
    (Version.mkVersion (ofInteger 13) (ofInteger 1) (ofInteger 0)) = -1.
Proof.
  split; [reflexivity|].
  apply (proj1 (proj2 (proj1 compare_scalar
           (Version.mkVersion (ofInteger 13) (ofInteger 0) (ofInteger 4))
           (Version.mkVersion (ofInteger 13) (ofInteger 1) (ofInteger 0))
           eq_refl eq_refl))).
  reflexivity.
Defined.

(** C3, as it is written, fails: the versions parsed from
    "90071992547410.0.1" and "90071992547410.0.0" have the exact scalars
    9007199254741001 and 9007199254741000, the first the larger, and
    [compare] gives 0, because both computed scalars are the double
    9007199254741000. *)
Lemma compare_rounds_scalars :
  Version.from "90071992547410.0.1"
  = Return (Version.mkVersion (ofInteger 90071992547410) (ofInteger 0)
              (ofInteger 1)) /\
  Version.from "90071992547410.0.0"
  = Return (Version.mkVersion (ofInteger 90071992547410) (ofInteger 0)
              (ofInteger 0)) /\
  exactScalar (Version.mkVersion (ofInteger 90071992547410) (ofInteger 0)
                 (ofInteger 1)) = Some 9007199254741001 /\
  exactScalar (Version.mkVersion (ofInteger 90071992547410) (ofInteger 0)
                 (ofInteger 0)) = Some 9007199254741000 /\
  threeWay 9007199254741001 9007199254741000 = 1 /\
  Version.compare
    (Version.mkVersion (ofInteger 90071992547410) (ofInteger 0) (ofInteger 1))
    (Version.mkVersion (ofInteger 90071992547410) (ofInteger 0) (ofInteger 0))
  = 0.
Proof. repeat split; vm_compute; reflexivity. Qed.

(** C10, as the code has it.  Whenever neither computed scalar is NaN, and
    so for every two versions that [Version.from] returned,
    [a.compare(b)] is the opposite of [b.compare(a)].  For every two
    versions, [a.same(b)] holds exactly when [b.same(a)] does, and one of
    [a.sameOrNewer(b)], [b.sameOrNewer(a)] holds. *)
Theorem compare_antisymmetric (a b : Version.Version) :
  (isNaN (scalar a) = false -> isNaN (scalar b) = false ->
   Version.compare a b = - Version.compare b a) /\
  (forall s1 s2, Version.from s1 = Return a -> Version.from s2 = Return b ->
                 Version.compare a b = - Version.compare b a) /\
  Version.same a b = Version.same b a /\
  (Version.sameOrNewer a b = true \/ Version.sameOrNewer b a = true).
Proof.
  assert (H : isNaN (scalar a) = false -> isNaN (scalar b) = false ->
              Version.compare a b = - Version.compare b a).
  { intros Ha Hb. rewrite (compare_key a b Ha Hb), (compare_key b a Hb Ha).
    rewrite (lex3_antisym (orderKey (scalar a)) (orderKey (scalar b))).
    destruct (lex3 _ _); reflexivity. }
  split; [exact H | split].
  - intros s1 s2 E1 E2.
    apply H; eapply from_scalar_not_NaN; eauto.
  - unfold Version.same, Version.sameOrNewer.
    destruct (isNaN (scalar a)) eqn:Ha; [|destruct (isNaN (scalar b)) eqn:Hb].
    + rewrite (compare_NaN a b), (compare_NaN b a) by auto. auto.
    + rewrite (compare_NaN a b), (compare_NaN b a) by auto. auto.
    + rewrite (H eq_refl eq_refl), (compare_key b a Hb Ha).
      destruct (lex3 _ _); simpl; auto.
Qed.

Lemma compare_antisymmetric_witness :
  Version.compare
    (Version.mkVersion (ofInteger 1) (ofInteger 2) (ofInteger 3))
    (Version.mkVersion (ofInteger 3) (ofInteger 2) (ofInteger 1))
  = - Version.compare
        (Version.mkVersion (ofInteger 3) (ofInteger 2) (ofInteger 1))
        (Version.mkVersion (ofInteger 1) (ofInteger 2) (ofInteger 3)).
Proof.
  exact (proj1 (compare_antisymmetric
                  (Version.mkVersion (ofInteger 1) (ofInteger 2) (ofInteger 3))
                  (Version.mkVersion (ofInteger 3) (ofInteger 2) (ofInteger 1)))
           eq_refl eq_refl).
Defined.

(** C10, as it is written, fails: the fields 2^1020 and -(2^1023) are
    integers, the two products are +Infinity and -Infinity, their sum is
    NaN, and [compare] gives 1 in both directions. *)
Lemma compare_NaN_both_ways :
  integerValue (ofInteger (2 ^ 1020)) = Some (2 ^ 1020) /\
  integerValue (ofInteger (- 2 ^ 1023)) = Some (- 2 ^ 1023) /\
  isNaN (scalar (Version.mkVersion (ofInteger (2 ^ 1020))
                   (ofInteger (- 2 ^ 1023)) (ofInteger 0))) = true /\
  Version.compare
    (Version.mkVersion (ofInteger (2 ^ 1020)) (ofInteger (- 2 ^ 1023))
       (ofInteger 0))
    (Version.mkVersion (ofInteger 0) (ofInteger 0) (ofInteger 0)) = 1 /\
  Version.compare
    (Version.mkVersion (ofInteger 0) (ofInteger 0) (ofInteger 0))
    (Version.mkVersion (ofInteger (2 ^ 1020)) (ofInteger (- 2 ^ 1023))
       (ofInteger 0)) = 1.
Proof. repeat split; vm_compute; reflexivity. Qed.

(** ** [MapUtils.filter] *)

Section MapUtilsFacts.
Variables K V : Type.
Variable sameKey : K -> K -> bool.
Hypothesis sameKey_spec : forall a b, sameKey a b = true <-> a = b.
Variable predicate : K -> V -> bool.

(** The loop body of [MapUtils.filter]. *)
Let step (aMap : MapUtils.Map K V) (entry : K * V) : MapUtils.Map K V :=
  let '(key, value) := entry in
  if predicate key value then MapUtils.set sameKey aMap key value else aMap.

Let keep (entry : K * V) : bool := predicate (fst entry) (snd entry).

Lemma set_fresh (m : MapUtils.Map K V) (key : K) (value : V) :
  ~ In key (List.map fst m) ->
  MapUtils.set sameKey m key value = (m ++ [(key, value)])%list.
Proof.
  induction m as [|[k v] m IH]; simpl; intros H; [reflexivity|].
  destruct (sameKey k key) eqn:E.
  - apply sameKey_spec in E. tauto.
  - rewrite IH by tauto. reflexivity.
Qed.

Lemma filter_loop (l : list (K * V)) (aMap : MapUtils.Map K V) :
  NoDup (List.map fst l) ->
  (forall k, In k (List.map fst l) -> ~ In k (List.map fst aMap)) ->
  fold_left step l aMap = (aMap ++ List.filter keep l)%list.
Proof.
  revert aMap; induction l as [|[k v] l IH]; simpl; intros aMap Hnd Hdis.
  - now rewrite app_nil_r.
  - inversion Hnd as [|k' l' Hk Hl]; subst.
    unfold keep at 1; simpl. destruct (predicate k v).
    + rewrite set_fresh by (apply Hdis; now left).
      rewrite IH; [now rewrite <- app_assoc | exact Hl |].
      intros k0 Hk0. rewrite map_app, in_app_iff. simpl.
      intros [H | [-> | []]]; [|contradiction].
      apply (Hdis k0); auto.
    + apply IH; [exact Hl|]. intros k0 Hk0. apply Hdis; auto.
Qed.

Lemma filter_Some (m : MapUtils.Map K V) :
  MapUtils.wellFormed m ->
  MapUtils.filter sameKey (Some m) predicate = List.filter keep m.
Proof.
  intros Hm. unfold MapUtils.filter, MapUtils.entries.
  change (fold_left step m [] = List.filter keep m).
  rewrite filter_loop; [reflexivity | exact Hm | intros k _ []].
Qed.

Lemma filter_keys_NoDup (l : list (K * V)) :
  NoDup (List.map fst l) -> NoDup (List.map fst (List.filter keep l)).
Proof.
  induction l as [|e l IH]; simpl; intros H; [constructor|].
  inversion H as [|k l' Hk Hl]; subst.
  destruct (keep e); simpl; [constructor|]; auto.
  intros Hin. apply Hk. apply in_map_iff in Hin.
  destruct Hin as (e' & <- & He'). apply filter_In in He'.
  apply in_map. tauto.
Qed.
End MapUtilsFacts.

(** C7. [MapUtils.filter(m, p)] returns a mapping that holds exactly the
    entries of [m] on which [p] is true, in the order they have in [m]; for
    a null [m] it returns the empty mapping; it always returns. *)
Theorem filter_spec (K V : Type) (sameKey : K -> K -> bool)
    (predicate : K -> V -> bool) :
  (forall a b, sameKey a b = true <-> a = b) ->
  MapUtils.filter sameKey None predicate = [] /\
  forall m : MapUtils.Map K V,
    MapUtils.wellFormed m ->
    let result := MapUtils.filter sameKey (Some m) predicate in
    result = List.filter (fun entry => predicate (fst entry) (snd entry)) m /\
    (forall k v, In (k, v) result <-> In (k, v) m /\ predicate k v = true) /\
    MapUtils.wellFormed result.
Proof.
  intros Hspec. split; [reflexivity|].
  intros m Hm result.
  assert (E : result
              = List.filter (fun entry => predicate (fst entry) (snd entry)) m)
    by now apply filter_Some.
  split; [exact E | split].
  - intros k v. rewrite E, filter_In. reflexivity.
  - rewrite E. now apply filter_keys_NoDup.
Qed.

Lemma filter_spec_witness :
  MapUtils.wellFormed [(1%nat, "a"); (2%nat, "b"); (3%nat, "c")] /\
  MapUtils.filter Nat.eqb (Some [(1%nat, "a"); (2%nat, "b"); (3%nat, "c")])
    (fun k _ => Nat.odd k)
  = [(1%nat, "a"); (3%nat, "c")].
Proof.
  assert (H : MapUtils.wellFormed [(1%nat, "a"); (2%nat, "b"); (3%nat, "c")]).
  { unfold MapUtils.wellFormed; simpl.
    repeat constructor; simpl; intuition discriminate. }
  split; [exact H|].
  exact (proj1 (proj2 (filter_spec nat string Nat.eqb (fun k _ => Nat.odd k)
                         Nat.eqb_eq) _ H)).
Defined.

(** ** [CommandLineUtils] *)

(** C8. [platformFlagIsIOS] is true exactly when the input is present, not
    empty, and lower-cases to "ios"; it is false on the empty string and on
    an absent input.  [platformFlagIsValid] is true exactly when
    [platformFlagIsIOS] or [platformFlagIsAndroid] is.  Both are total. *)
Theorem platformFlag_spec (input : option string) :
  (CommandLineUtils.platformFlagIsIOS input = true <->
   exists s, input = Some s /\ s <> "" /\ toLowerCase s = "ios") /\
  (CommandLineUtils.platformFlagIsValid input = true <->
   CommandLineUtils.platformFlagIsIOS input = true \/
   CommandLineUtils.platformFlagIsAndroid input = true) /\
  CommandLineUtils.platformFlagIsIOS (Some "") = false /\
  CommandLineUtils.platformFlagIsIOS None = false /\
  CommandLineUtils.platformFlagIsIOS (Some "IOS") = true /\
  CommandLineUtils.platformFlagIsIOS (Some "Android") = false.
Proof.
  split; [|split; [|repeat split; reflexivity]].
  - unfold CommandLineUtils.platformFlagIsIOS, CommandLineUtils.IOS_FLAG.
    destruct input as [[|c s]|]; cbn [ToBoolean].
    + split; [discriminate | intros (s & [= <-] & H & _); congruence].
    + rewrite String.eqb_eq. split.
      * intros H. exists (String c s). repeat split; [discriminate | exact H].
      * intros (s' & [= <-] & _ & H). exact H.
    + split; [discriminate | intros (s & H & _); discriminate].
  - unfold CommandLineUtils.platformFlagIsValid. apply orb_true_iff.
Qed.





(* ================================================================== *)
(** * Part III: further properties of the code *)
(* ================================================================== *)

Import More.

(** ** [SetUtils.filter] *)

Section SetUtilsFacts.
Variable V : Type.
Variable sameValue : V -> V -> bool.
Hypothesis sameValue_spec : forall a b, sameValue a b = true <-> a = b.
Variable predicate : V -> bool.

Lemma has_In (s : SetUtils.Set_ V) (value : V) :
  SetUtils.has sameValue s value = true <-> In value s.
Proof.
  induction s as [|v s IH]; simpl; [split; [discriminate | tauto]|].
  now rewrite orb_true_iff, sameValue_spec, IH.
Qed.

Lemma add_fresh (s : SetUtils.Set_ V) (value : V) :
  ~ In value s -> SetUtils.add sameValue s value = (s ++ [value])%list.
Proof.
  intros H. unfold SetUtils.add.
  destruct (SetUtils.has sameValue s value) eqn:E; [|reflexivity].
  apply has_In in E. contradiction.
Qed.

Lemma set_filter_loop (l aSet : SetUtils.Set_ V) :
  NoDup l ->
  (forall v, In v l -> ~ In v aSet) ->
  fold_left
    (fun aSet '(value, _) =>
       if predicate value then SetUtils.add sameValue aSet value else aSet)
    (SetUtils.entries l) aSet
  = (aSet ++ List.filter predicate l)%list.
Proof.
  revert aSet; induction l as [|v l IH]; simpl; intros aSet Hnd Hdis.
  - now rewrite app_nil_r.
  - inversion Hnd as [|v' l' Hv Hl]; subst.
    destruct (predicate v).
    + rewrite add_fresh by (apply Hdis; now left).
      unfold SetUtils.entries in IH.
      rewrite IH; [now rewrite <- app_assoc | exact Hl |].
      intros w Hw. rewrite in_app_iff. simpl.
      intros [H | [-> | []]]; [|contradiction].
      apply (Hdis w); auto.
    + apply IH; [exact Hl|]. intros w Hw. apply Hdis; auto.
Qed.

Lemma set_filter_Some (s : SetUtils.Set_ V) :
  SetUtils.wellFormed s ->
  SetUtils.filter sameValue (Some s) predicate = List.filter predicate s.
Proof.
  intros Hs. unfold SetUtils.filter.
  rewrite set_filter_loop; [reflexivity | exact Hs | intros v _ []].
Qed.
End SetUtilsFacts.

Lemma filter_NoDup (A : Type) (p : A -> bool) (l : list A) :
  NoDup l -> NoDup (List.filter p l).
Proof.
  induction l as [|a l IH]; simpl; intros H; [constructor|].
  inversion H as [|a' l' Ha Hl]; subst.
  destruct (p a); [constructor|]; auto.
  rewrite filter_In. tauto.
Qed.

Lemma filter_twice (A : Type) (p q : A -> bool) (l : list A) :
  List.filter q (List.filter p l) = List.filter (fun a => p a && q a) l.
Proof.
  induction l as [|a l IH]; simpl; [reflexivity|].
  destruct (p a); simpl; [destruct (q a)|]; now rewrite IH.
Qed.

Lemma filter_all (A : Type) (p : A -> bool) (l : list A) :
  (forall a, In a l -> p a = true) -> List.filter p l = l.
Proof.
  induction l as [|a l IH]; simpl; intros H; [reflexivity|].
  rewrite (H a) by auto. f_equal. apply IH. auto.
Qed.

Lemma filter_none (A : Type) (p : A -> bool) (l : list A) :
  (forall a, In a l -> p a = false) -> List.filter p l = [].
Proof.
  induction l as [|a l IH]; simpl; intros H; [reflexivity|].
  rewrite (H a) by auto. apply IH. auto.
Qed.

(** X1. [SetUtils.filter(s, p)] returns a set that holds exactly the
    elements of [s] on which [p] is true, in the order they have in [s]; for
    a null [s] it returns the empty set. *)
Theorem set_filter_spec (V : Type) (sameValue : V -> V -> bool)
    (predicate : V -> bool) :
  (forall a b, sameValue a b = true <-> a = b) ->
  SetUtils.filter sameValue None predicate = [] /\
  forall s : SetUtils.Set_ V,
    SetUtils.wellFormed s ->
    let result := SetUtils.filter sameValue (Some s) predicate in
    result = List.filter predicate s /\
    (forall v, In v result <-> In v s /\ predicate v = true) /\
    SetUtils.wellFormed result.
Proof.
  intros Hspec. split; [reflexivity|].
  intros s Hs result.
  assert (E : result = List.filter predicate s) by now apply set_filter_Some.
  split; [exact E | split].
  - intros v. rewrite E. apply filter_In.
  - rewrite E. now apply filter_NoDup.
Qed.

Lemma set_filter_spec_witness :
  SetUtils.wellFormed [4%nat; 7%nat; 10%nat; 13%nat] /\
  SetUtils.filter Nat.eqb (Some [4%nat; 7%nat; 10%nat; 13%nat]) Nat.even
  = [4%nat; 10%nat].
Proof.
  assert (H : SetUtils.wellFormed [4%nat; 7%nat; 10%nat; 13%nat]).
  { unfold SetUtils.wellFormed.
    repeat constructor; simpl; intuition discriminate. }
  split; [exact H|].
  exact (proj1 (proj2 (set_filter_spec nat Nat.eqb Nat.even Nat.eqb_eq) _ H)).
Defined.

(** X2. Filtering a set by [p] and the result by [q] gives the same set as
    filtering by [q] first and by [p] second, and as filtering once by
    "[p] and [q]". *)
Theorem set_filter_compose (V : Type) (sameValue : V -> V -> bool)
    (p q : V -> bool) (s : SetUtils.Set_ V) :
  (forall a b, sameValue a b = true <-> a = b) ->
  SetUtils.wellFormed s ->
  SetUtils.filter sameValue (Some (SetUtils.filter sameValue (Some s) p)) q
  = SetUtils.filter sameValue (Some s) (fun v => p v && q v) /\
  SetUtils.filter sameValue (Some (SetUtils.filter sameValue (Some s) p)) q
  = SetUtils.filter sameValue (Some (SetUtils.filter sameValue (Some s) q)) p.
Proof.
  intros Hspec Hs.
  rewrite !(set_filter_Some V sameValue Hspec _ s Hs).
  rewrite !(set_filter_Some V sameValue Hspec) by now apply filter_NoDup.
  rewrite !filter_twice. split; [reflexivity|].
  apply filter_ext. intros v. apply andb_comm.
Qed.

Lemma set_filter_compose_witness :
  SetUtils.filter Nat.eqb
    (Some (SetUtils.filter Nat.eqb (Some [2%nat; 3%nat; 4%nat; 6%nat]) Nat.even))
    (fun n => Nat.ltb 3 n)
  = [4%nat; 6%nat].
Proof.
  assert (H : SetUtils.wellFormed [2%nat; 3%nat; 4%nat; 6%nat]).
  { unfold SetUtils.wellFormed.
    repeat constructor; simpl; intuition discriminate. }
  exact (proj1 (set_filter_compose nat Nat.eqb Nat.even (fun n => Nat.ltb 3 n)
                  _ Nat.eqb_eq H)).
Defined.

(** ** [MapUtils.filter], composed *)

(** X3. Filtering a map by [p] and the result by [q] gives the same map as
    filtering once by "[p] and [q]"; the two filters may be swapped. *)
Theorem filter_compose (K V : Type) (sameKey : K -> K -> bool)
    (p q : K -> V -> bool) (m : MapUtils.Map K V) :
  (forall a b, sameKey a b = true <-> a = b) ->
  MapUtils.wellFormed m ->
  MapUtils.filter sameKey (Some (MapUtils.filter sameKey (Some m) p)) q
  = MapUtils.filter sameKey (Some m) (fun k v => p k v && q k v) /\
  MapUtils.filter sameKey (Some (MapUtils.filter sameKey (Some m) p)) q
  = MapUtils.filter sameKey (Some (MapUtils.filter sameKey (Some m) q)) p.
Proof.
  intros Hspec Hm.
  rewrite !(filter_Some K V sameKey Hspec _ m Hm).
  rewrite !(filter_Some K V sameKey Hspec)
    by now apply filter_keys_NoDup.
  rewrite !filter_twice. split; [reflexivity|].
  apply filter_ext. intros e. apply andb_comm.
Qed.

Lemma filter_compose_witness :
  MapUtils.filter Nat.eqb
    (Some (MapUtils.filter Nat.eqb
             (Some [(1%nat, "ios"); (2%nat, "android"); (3%nat, "web")])
             (fun k _ => Nat.ltb 1 k)))
    (fun _ v => negb (String.eqb v "web"))
  = [(2%nat, "android")].
Proof.
  assert (H : MapUtils.wellFormed
                [(1%nat, "ios"); (2%nat, "android"); (3%nat, "web")]).
  { unfold MapUtils.wellFormed; simpl.
    repeat constructor; simpl; intuition discriminate. }
  exact (proj1 (filter_compose nat string Nat.eqb (fun k _ => Nat.ltb 1 k)
                  (fun _ v => negb (String.eqb v "web")) _ Nat.eqb_eq H)).
Defined.

(** X4. A predicate that holds on every entry makes [MapUtils.filter] return
    the entries of the map unchanged, in the same order (a copy); one that
    holds on no entry makes it return the empty map; and the result never
    has more entries than the map. *)
Theorem filter_all_or_none (K V : Type) (sameKey : K -> K -> bool)
    (p : K -> V -> bool) (m : MapUtils.Map K V) :
  (forall a b, sameKey a b = true <-> a = b) ->
  MapUtils.wellFormed m ->
  ((forall k v, In (k, v) m -> p k v = true) ->
   MapUtils.filter sameKey (Some m) p = m) /\
  ((forall k v, In (k, v) m -> p k v = false) ->
   MapUtils.filter sameKey (Some m) p = []) /\
  (List.length (MapUtils.filter sameKey (Some m) p) <= List.length m)%nat.
Proof.
  intros Hspec Hm. rewrite (filter_Some K V sameKey Hspec p m Hm).
  split; [|split].
  - intros H. apply filter_all. intros [k v] Hin. simpl. auto.
  - intros H. apply filter_none. intros [k v] Hin. simpl. auto.
  - apply filter_length_le.
Qed.

Lemma filter_all_or_none_witness :
  MapUtils.filter Nat.eqb (Some [(5%nat, "a"); (6%nat, "b")])
    (fun k _ => Nat.ltb 4 k)
  = [(5%nat, "a"); (6%nat, "b")].
Proof.
  assert (H : MapUtils.wellFormed [(5%nat, "a"); (6%nat, "b")]).
  { unfold MapUtils.wellFormed; simpl.
    repeat constructor; simpl; intuition discriminate. }
  apply (proj1 (filter_all_or_none nat string Nat.eqb (fun k _ => Nat.ltb 4 k)
                  _ Nat.eqb_eq H)).
  intros k v [[= <- <-] | [[= <- <-] | []]]; reflexivity.
Defined.

(** ** The platform flags *)

Lemma toLowerCaseUnit_idem (c : ascii) :
  toLowerCaseUnit (toLowerCaseUnit c) = toLowerCaseUnit c.
Proof. by_cases_on_unit c. Qed.

Lemma toLowerCase_idem (s : string) : toLowerCase (toLowerCase s) = toLowerCase s.
Proof.
  unfold toLowerCase. rewrite mapUnits_mapUnits.
  apply mapUnits_ext, toLowerCaseUnit_idem.
Qed.

(** The test [if (input)] changes nothing for a string: the empty string
    lower-cases to itself, and is no flag. *)
Lemma platformFlagIsIOS_Some (s : string) :
  CommandLineUtils.platformFlagIsIOS (Some s)
  = String.eqb (toLowerCase s) CommandLineUtils.IOS_FLAG.
Proof. destruct s; reflexivity. Qed.

Lemma platformFlagIsAndroid_Some (s : string) :
  CommandLineUtils.platformFlagIsAndroid (Some s)
  = String.eqb (toLowerCase s) CommandLineUtils.ANDROID_FLAG.
Proof. destruct s; reflexivity. Qed.

(** X5. [platformFlagIsAndroid] is true exactly on a present input that
    lower-cases to "android", and [platformFlagIsValid] exactly on a present
    input that lower-cases to "ios" or to "android"; an absent input is
    never valid. *)
Theorem platformFlagIsValid_iff (input : option string) :
  (CommandLineUtils.platformFlagIsAndroid input = true <->
   exists s, input = Some s /\ toLowerCase s = "android") /\
  (CommandLineUtils.platformFlagIsValid input = true <->
   exists s, input = Some s /\
             (toLowerCase s = "ios" \/ toLowerCase s = "android")) /\
  CommandLineUtils.platformFlagIsValid None = false.
Proof.
  split; [|split; [|reflexivity]].
  - destruct input as [s|].
    + rewrite platformFlagIsAndroid_Some, String.eqb_eq. split.
      * intros H. now exists s.
      * intros (s' & [= <-] & H). exact H.
    + split; [discriminate | intros (s & H & _); discriminate].
  - unfold CommandLineUtils.platformFlagIsValid. destruct input as [s|].
    + rewrite orb_true_iff, platformFlagIsIOS_Some, platformFlagIsAndroid_Some,
        !String.eqb_eq. split.
      * intros H. now exists s.
      * intros (s' & [= <-] & H). exact H.
    + split; [discriminate | intros (s & H & _); discriminate].
Qed.

(** X6. No input is both an iOS flag and an Android flag. *)
Theorem platformFlag_exclusive (input : option string) :
  CommandLineUtils.platformFlagIsIOS input
  && CommandLineUtils.platformFlagIsAndroid input = false.
Proof.
  destruct input as [s|]; [|reflexivity].
  rewrite platformFlagIsIOS_Some, platformFlagIsAndroid_Some.
  destruct (String.eqb_spec (toLowerCase s) CommandLineUtils.IOS_FLAG) as [E | E];
    [|reflexivity].
  rewrite E. reflexivity.
Qed.

(** X7. The three platform tests do not look at the case of letters: two
    inputs with the same lower-casing get the same three answers, and so do
    an input and its lower-casing. *)
Theorem platformFlag_case_insensitive (s1 s2 : string) :
  toLowerCase s1 = toLowerCase s2 ->
  CommandLineUtils.platformFlagIsIOS (Some s1)
  = CommandLineUtils.platformFlagIsIOS (Some s2) /\
  CommandLineUtils.platformFlagIsAndroid (Some s1)
  = CommandLineUtils.platformFlagIsAndroid (Some s2) /\
  CommandLineUtils.platformFlagIsValid (Some s1)
  = CommandLineUtils.platformFlagIsValid (Some s2) /\
  CommandLineUtils.platformFlagIsValid (Some (toLowerCase s1))
  = CommandLineUtils.platformFlagIsValid (Some s1).
Proof.
  intros H. unfold CommandLineUtils.platformFlagIsValid.
  rewrite !platformFlagIsIOS_Some, !platformFlagIsAndroid_Some.
  rewrite toLowerCase_idem, H. auto.
Qed.

Lemma platformFlag_case_insensitive_witness :
  toLowerCase "AnDroid" = toLowerCase "ANDROID" /\
  CommandLineUtils.platformFlagIsAndroid (Some "AnDroid")
  = CommandLineUtils.platformFlagIsAndroid (Some "ANDROID").
Proof.
  split; [reflexivity|].
  exact (proj1 (proj2 (platformFlag_case_insensitive "AnDroid" "ANDROID"
                         eq_refl))).
Defined.

(** ** [resolveFlag], once more *)

(** X8. With a default value that is not empty, [resolveFlag] returns a
    string that is not empty, whatever primitive value the flag is; the
    result is the flag itself or the default value; and resolving the
    result again, with any default value, returns it unchanged. *)
Theorem resolveFlag_nonempty (flag : value) (defaultValue : string) :
  defaultValue <> "" ->
  exists c s,
    CommandLineUtils.resolveFlag flag defaultValue
    = Return (VString (String c s)) /\
    (VString (String c s) = flag \/ String c s = defaultValue) /\
    forall otherDefault,
      CommandLineUtils.resolveFlag (VString (String c s)) otherDefault
      = Return (VString (String c s)).
Proof.
  intros Hd. destruct defaultValue as [|d ds]; [congruence|].
  assert (Hre : forall c s otherDefault,
             CommandLineUtils.resolveFlag (VString (String c s)) otherDefault
             = Return (VString (String c s))) by reflexivity.
  unfold CommandLineUtils.resolveFlag.
  destruct flag as [| |[]|[| | |]|[|c s]]; simpl;
    try (exists d, ds; repeat split; auto; fail).
  exists c, s. repeat split; auto.
Qed.

Lemma resolveFlag_nonempty_witness :
  exists c s,
    CommandLineUtils.resolveFlag (VNumber (ofInteger 5)) "ios"
    = Return (VString (String c s)) /\
    (VString (String c s) = VNumber (ofInteger 5) \/ String c s = "ios") /\
    forall otherDefault,
      CommandLineUtils.resolveFlag (VString (String c s)) otherDefault
      = Return (VString (String c s)).
Proof.
  apply (resolveFlag_nonempty (VNumber (ofInteger 5)) "ios"). discriminate.
Defined.

(** ** [Version.compare], [same], [sameOrNewer] *)

(** X9. [a.sameOrNewer(a)] always holds, and [a.same(a)] holds exactly when
    the computed scalar of [a] is not NaN.  [sameOrNewer] is transitive
    through a version whose scalar is not NaN, and [same] is transitive.
    Between versions whose scalars are not NaN, [same] holds exactly when
    [sameOrNewer] holds in both directions, and [a.sameOrNewer(b)] holds
    exactly when the scalar of [b] is at most the scalar of [a]. *)
Theorem sameOrNewer_preorder (a b c : Version.Version) :
  Version.sameOrNewer a a = true /\
  (Version.same a a = true <-> isNaN (scalar a) = false) /\
  (isNaN (scalar b) = false ->
   Version.sameOrNewer a b = true -> Version.sameOrNewer b c = true ->
   Version.sameOrNewer a c = true) /\
  (Version.same a b = true -> Version.same b c = true ->
   Version.same a c = true) /\
  (isNaN (scalar a) = false -> isNaN (scalar b) = false ->
   Version.same a b = Version.sameOrNewer a b && Version.sameOrNewer b a /\
   (Version.sameOrNewer a b = true <-> atMost (scalar b) (scalar a) = true)).
Proof.
  unfold Version.same, Version.sameOrNewer.
  refine (conj _ (conj _ (conj _ (conj _ _)))).
  - destruct (isNaN (scalar a)) eqn:Ha.
    + now rewrite compare_NaN by auto.
    + now rewrite compare_key, lex3_refl by auto.
  - destruct (isNaN (scalar a)) eqn:Ha.
    + rewrite compare_NaN by auto. split; discriminate.
    + rewrite compare_key, lex3_refl by auto. split; reflexivity.
  - intros Hb.
    destruct (isNaN (scalar a)) eqn:Ha;
      [intros _ _; now rewrite compare_NaN by auto|].
    destruct (isNaN (scalar c)) eqn:Hc;
      [intros _ _; now rewrite compare_NaN by auto|].
    rewrite !compare_key by auto.
    pose proof (lex3_trans (orderKey (scalar a)) (orderKey (scalar b))
                  (orderKey (scalar c))) as T.
    destruct (lex3 (orderKey (scalar a)) (orderKey (scalar b)));
      destruct (lex3 (orderKey (scalar b)) (orderKey (scalar c)));
      destruct (lex3 (orderKey (scalar a)) (orderKey (scalar c)));
      simpl in *; intros; try reflexivity; try discriminate;
      exfalso; apply T; congruence.
  - destruct (isNaN (scalar a)) eqn:Ha;
      [rewrite (compare_NaN a b) by auto; discriminate|].
    destruct (isNaN (scalar b)) eqn:Hb;
      [rewrite (compare_NaN a b) by auto; discriminate|].
    destruct (isNaN (scalar c)) eqn:Hc;
      [rewrite (compare_NaN b c) by auto; discriminate|].
    rewrite !compare_key by auto.
    pose proof (lex3_eq_trans (orderKey (scalar a)) (orderKey (scalar b))
                  (orderKey (scalar c))) as T.
    destruct (lex3 (orderKey (scalar a)) (orderKey (scalar b)));
      destruct (lex3 (orderKey (scalar b)) (orderKey (scalar c)));
      try discriminate. rewrite T by reflexivity. reflexivity.
  - intros Ha Hb. unfold atMost, SFleb.
    rewrite (compare_key a b), (compare_key b a) by auto.
    rewrite (SFcompare_key _ _ Hb Ha).
    rewrite (lex3_antisym (orderKey (scalar a)) (orderKey (scalar b))).
    destruct (lex3 (orderKey (scalar a)) (orderKey (scalar b))); simpl;
      repeat split; intros; try reflexivity; try discriminate.
Qed.

Lemma sameOrNewer_preorder_witness :
  Version.sameOrNewer (versionOf 3 0 0) (versionOf 1 2 3) = true.
Proof.
  apply (proj1 (proj2 (proj2 (sameOrNewer_preorder
                                (versionOf 3 0 0) (versionOf 2 1 0)
                                (versionOf 1 2 3)))));
    reflexivity.
Defined.

(** X10. On versions whose fields are integers, with a major between 0 and
    2^53/100 - 1 and a minor and a patch that are single digits (0 to 9),
    [compare] is the order of semantic versioning: majors first, then
    minors, then patches; and [same] holds only between equal triples. *)
Theorem compare_lexicographic (ma1 mi1 pa1 ma2 mi2 pa2 : Z) :
  0 <= ma1 -> ma1 * 100 + 99 < 2 ^ 53 -> 0 <= mi1 <= 9 -> 0 <= pa1 <= 9 ->
  0 <= ma2 -> ma2 * 100 + 99 < 2 ^ 53 -> 0 <= mi2 <= 9 -> 0 <= pa2 <= 9 ->
  Version.compare (versionOf ma1 mi1 pa1) (versionOf ma2 mi2 pa2)
  = lexCompare ma1 mi1 pa1 ma2 mi2 pa2 /\
  (Version.same (versionOf ma1 mi1 pa1) (versionOf ma2 mi2 pa2) = true ->
   ma1 = ma2 /\ mi1 = mi2 /\ pa1 = pa2).
Proof.
  intros. unfold Version.same. rewrite compare_exact by lia.
  unfold lexCompare, threeWay.
  destruct (Z.compare_spec (ma1 * 100 + mi1 * 10 + pa1)
              (ma2 * 100 + mi2 * 10 + pa2));
    destruct (Z.compare_spec ma1 ma2);
    destruct (Z.compare_spec mi1 mi2);
    destruct (Z.compare_spec pa1 pa2);
    try lia; split; try reflexivity; try discriminate; intros _; lia.
Qed.

Lemma compare_lexicographic_witness :
  Version.compare (versionOf 12 9 9) (versionOf 13 0 0) = -1.
Proof.
  apply (compare_lexicographic 12 9 9 13 0 0); lia.
Defined.

(** X11. Outside single digits the order is not the one of semantic
    versioning: ten minors weigh as much as one major and ten patches as
    much as one minor.  For integers [M], [m] and [p] that are not negative
    and small enough for the scalars to be exact, the versions [M.(m+10).p]
    and [(M+1).m.p] are [same] although the second has the larger major,
    and so are [M.m.(p+10)] and [M.(m+1).p]. *)
Theorem compare_carry (ma mi pa : Z) :
  0 <= ma -> 0 <= mi -> 0 <= pa ->
  (ma + 1) * 100 + (mi + 10) * 10 + (pa + 10) < 2 ^ 53 ->
  Version.same (versionOf ma (mi + 10) pa) (versionOf (ma + 1) mi pa) = true /\
  lexCompare ma (mi + 10) pa (ma + 1) mi pa = -1 /\
  Version.same (versionOf ma mi (pa + 10)) (versionOf ma (mi + 1) pa) = true /\
  lexCompare ma mi (pa + 10) ma (mi + 1) pa = -1.
Proof.
  intros. unfold Version.same. rewrite !compare_exact by lia.
  assert (L : forall x, (x ?= x + 1) = Lt)
    by (intros x; apply Z.compare_lt_iff; lia).
  replace (ma * 100 + (mi + 10) * 10 + pa)
    with ((ma + 1) * 100 + mi * 10 + pa) by ring.
  replace (ma * 100 + mi * 10 + (pa + 10))
    with (ma * 100 + (mi + 1) * 10 + pa) by ring.
  unfold lexCompare, threeWay.
  rewrite !Z.compare_refl, !L. repeat split.
Qed.

Lemma compare_carry_witness :
  Version.same (versionOf 1 10 0) (versionOf 2 0 0) = true.
Proof.
  apply (compare_carry 1 0 0); lia.
Defined.


(** ** [Version.from]: white space around the input *)

Lemma trimEnd_idem (s : string) : trimEnd (trimEnd s) = trimEnd s.
Proof.
  induction s as [|c s IH]; simpl; [reflexivity|].
  destruct (trimEnd s) as [|d r] eqn:E.
  - destruct (isWhiteSpace c) eqn:Ec; simpl; [reflexivity | now rewrite Ec].
  - change (trimEnd (String c (String d r))) with
      (match trimEnd (String d r) with
       | "" => if isWhiteSpace c then "" else String c ""
       | String a r' => String c (String a r')
       end).
    now rewrite IH.
Qed.

(** What [trimStart] returns does not start with white space. *)
Lemma trimStart_head (s : string) :
  match trimStart s with
  | "" => True
  | String c _ => isWhiteSpace c = false
  end.
Proof.
  induction s as [|c s IH]; simpl; [exact I|].
  destruct (isWhiteSpace c) eqn:E; [exact IH | exact E].
Qed.

Lemma trimStart_trimEnd (s : string) :
  match s with
  | "" => True
  | String c _ => isWhiteSpace c = false
  end ->
  trimStart (trimEnd s) = trimEnd s.
Proof.
  destruct s as [|c s]; [reflexivity|]. intros Hc. simpl.
  destruct (trimEnd s); rewrite ?Hc; simpl; rewrite ?Hc; reflexivity.
Qed.

Lemma trim_idem (s : string) : trim (trim s) = trim s.
Proof.
  unfold trim. rewrite trimStart_trimEnd by apply trimStart_head.
  apply trimEnd_idem.
Qed.

(** Two calls that reach the same [original] end alike. *)
Lemma fromOriginal_sameOutcome (i1 i2 original : string) :
  sameOutcome (fromOriginal i1 original) (fromOriginal i2 original).
Proof.
  destruct (allUnits Version.acceptedRange original) eqn:E.
  - rewrite !fromOriginal_valid by exact E. now apply fromParts_firstn.
  - rewrite !fromOriginal_invalid by exact E. exact I.
Qed.

(** X12. White space around the input does not count: [Version.from] ends
    on an input as it ends on the trimmed input, and two inputs with the
    same trimmed text both throw or both return the same fields. *)
Theorem from_trim (s1 s2 : string) :
  sameOutcome (Version.from s1) (Version.from (trim s1)) /\
  (trim s1 = trim s2 -> sameOutcome (Version.from s1) (Version.from s2)).
Proof.
  rewrite !from_fromOriginal, trim_idem. split.
  - apply fromOriginal_sameOutcome.
  - intros ->. apply fromOriginal_sameOutcome.
Qed.

Lemma from_trim_witness :
  trim "  13.0.4" = trim "13.0.4   " /\
  sameOutcome (Version.from "  13.0.4") (Version.from "13.0.4   ").
Proof.
  split; [reflexivity|].
  exact (proj2 (from_trim "  13.0.4" "13.0.4   ") eq_refl).
Defined.

(** ** [Version.from]: a separator in front *)

Lemma fromParts_empty_head (input : string) (rest : list string) :
  fromParts input ("" :: rest) = Throw (Version.invalidVersion input).
Proof.
  apply fromParts_throws_iff. exists 0%nat, "". simpl.
  repeat split; auto. destruct rest as [|b [|c r]]; simpl; lia.
Qed.

(** X13. An input whose trimmed text starts with a period or a hyphen is
    refused: a sign is no part of a version, and "-1.2.3" throws like
    ".1.2.3". *)
Theorem from_leading_separator (input rest : string) (c : ascii) :
  isSeparator c -> trim input = String c rest ->
  Version.from input = Throw (Version.invalidVersion input).
Proof.
  intros Hc Ht.
  destruct (containsOther_dec (trim input)) as [H | H];
    [now apply from_invalid|].
  rewrite (from_valid _ H). unfold segments. rewrite Ht.
  assert (E : replaceUnit "-" "." (String c rest)
              = String "." (replaceUnit "-" "." rest))
    by (destruct Hc as [-> | ->]; reflexivity).
  rewrite E. simpl. apply fromParts_empty_head.
Qed.

Lemma from_leading_separator_witness :
  trim " -1.2.3" = "-1.2.3" /\
  Version.from " -1.2.3" = Throw (Version.invalidVersion " -1.2.3").
Proof.
  split; [reflexivity|].
  apply (from_leading_separator " -1.2.3" "1.2.3" "-"); [now right | reflexivity].
Defined.

(** ** [Version.from]: reading back what was written in base 10 *)

Lemma allUnits_app (p : ascii -> bool) (a b : string) :
  allUnits p (a ++ b) = allUnits p a && allUnits p b.
Proof.
  induction a as [|c a IH]; simpl; [reflexivity|].
  now rewrite IH, andb_assoc.
Qed.

Lemma mapUnits_app (f : ascii -> ascii) (a b : string) :
  mapUnits f (a ++ b) = mapUnits f a ++ mapUnits f b.
Proof. induction a as [|c a IH]; simpl; [reflexivity | now rewrite IH]. Qed.

Lemma allUnits_impl (p q : ascii -> bool) (s : string) :
  (forall c, p c = true -> q c = true) ->
  allUnits p s = true -> allUnits q s = true.
Proof.
  intros Hpq; induction s as [|c s IH]; simpl; [reflexivity|].
  rewrite !andb_true_iff. intros [Hc Hs]. auto.
Qed.

Lemma isDigit_accepted (c : ascii) :
  isDigit c = true -> Version.acceptedRange c = true.
Proof. intros H. unfold Version.acceptedRange. now rewrite H. Qed.

Lemma accepted_not_whiteSpace (c : ascii) :
  Version.acceptedRange c = true -> negb (isWhiteSpace c) = true.
Proof. by_cases_on_unit c. Qed.

Lemma isDigit_not_period (c : ascii) :
  isDigit c = true -> Ascii.eqb c "." = false.
Proof. by_cases_on_unit c. Qed.

Lemma isDigit_hyphenToPeriod (c : ascii) :
  isDigit c = true -> hyphenToPeriod c = c.
Proof. by_cases_on_unit c. Qed.

Lemma isDigit_plain (c : ascii) :
  isDigit c = true ->
  isWhiteSpace c = false /\ c <> "-"%char /\ c <> "+"%char.
Proof. by_cases_on_unit c; repeat split; discriminate. Qed.

Lemma trimStart_no_whiteSpace (s : string) :
  allUnits (fun c => negb (isWhiteSpace c)) s = true -> trimStart s = s.
Proof.
  destruct s as [|c s]; simpl; [reflexivity|].
  rewrite andb_true_iff, negb_true_iff. now intros [-> _].
Qed.

Lemma trimEnd_no_whiteSpace (s : string) :
  allUnits (fun c => negb (isWhiteSpace c)) s = true -> trimEnd s = s.
Proof.
  induction s as [|c s IH]; simpl; [reflexivity|].
  rewrite andb_true_iff, negb_true_iff. intros [Hc Hs].
  rewrite (IH Hs), Hc. now destruct s.
Qed.

Lemma trim_accepted (s : string) :
  allUnits Version.acceptedRange s = true -> trim s = s.
Proof.
  intros H. apply (allUnits_impl _ _ _ accepted_not_whiteSpace) in H.
  unfold trim. now rewrite trimStart_no_whiteSpace, trimEnd_no_whiteSpace.
Qed.

Lemma split_digits_sep (a rest : string) :
  allUnits isDigit a = true ->
  split "." (a ++ String "." rest) = a :: split "." rest.
Proof.
  induction a as [|c a IH]; simpl; [reflexivity|].
  rewrite andb_true_iff. intros [Hc Ha].
  now rewrite (isDigit_not_period c Hc), (IH Ha).
Qed.

Lemma split_digits (a : string) :
  allUnits isDigit a = true -> split "." a = [a].
Proof.
  induction a as [|c a IH]; simpl; [reflexivity|].
  rewrite andb_true_iff. intros [Hc Ha].
  now rewrite (isDigit_not_period c Hc), (IH Ha).
Qed.

Lemma digitsPrefix_id (s : string) :
  allUnits isDigit s = true -> digitsPrefix s = s.
Proof.
  induction s as [|c s IH]; simpl; [reflexivity|].
  rewrite andb_true_iff. intros [-> Hs]. now rewrite IH.
Qed.

(** A run of digits parses to the double of its value. *)
Lemma parseInt10_digitRun (s : string) :
  digitRun s -> parseInt10 s = ofInteger (digitsValue 0 s).
Proof.
  intros [Hne Hd]. destruct s as [|c s]; [congruence|].
  pose proof (digitsPrefix_id _ Hd) as Hp.
  simpl in Hd. apply andb_true_iff in Hd. destruct Hd as [Hc Hs].
  destruct (isDigit_plain c Hc) as (Hw & Hm & Hpl).
  unfold parseInt10. cbn [trimStart]. rewrite Hw.
  transitivity
    (match digitsPrefix (String c s) with
     | "" => NaN
     | String a ds =>
         if digitsValue 0 (String a ds) =? 0 then S754_zero (1 <? 0)
         else ofInteger (1 * digitsValue 0 (String a ds))
     end).
  - clear -Hm Hpl.
    destruct c as [[] [] [] [] [] [] [] []]; try reflexivity; congruence.
  - rewrite Hp, Z.mul_1_l.
    destruct (Z.eqb_spec (digitsValue 0 (String c s)) 0) as [-> | _];
      reflexivity.
Qed.

Lemma digitsValue_of_uint_acc (d : Decimal.uint) (acc : positive) :
  digitsValue (Z.pos acc) (NilEmpty.string_of_uint d)
  = Z.pos (Pos.of_uint_acc d acc).
Proof.
  revert acc; induction d; intros acc;
    cbn [NilEmpty.string_of_uint Pos.of_uint_acc digitsValue];
    [reflexivity|..];
    rewrite <- IHd; f_equal;
    match goal with
    | |- context [digitValue ?c] =>
        let v := eval vm_compute in (digitValue c) in
        change (digitValue c) with v
    end; lia.
Qed.

Lemma digitsValue_of_uint (d : Decimal.uint) :
  digitsValue 0 (NilEmpty.string_of_uint d) = Z.of_N (Pos.of_uint d).
Proof.
  induction d; cbn [NilEmpty.string_of_uint Pos.of_uint digitsValue];
    [reflexivity | exact IHd |..];
    apply digitsValue_of_uint_acc.
Qed.

Lemma string_of_uint_digits (d : Decimal.uint) :
  allUnits isDigit (NilEmpty.string_of_uint d) = true.
Proof. induction d; simpl; auto. Qed.

Lemma decimal_NilEmpty (n : N) :
  decimal n = NilEmpty.string_of_uint (N.to_uint n) /\ N.to_uint n <> Decimal.Nil.
Proof.
  unfold decimal, NilZero.string_of_uint. destruct n as [|p]; simpl.
  - split; [reflexivity | discriminate].
  - pose proof (DecimalPos.Unsigned.to_uint_nonnil p) as H.
    destruct (Pos.to_uint p); [congruence | split; [reflexivity | discriminate] ..].
Qed.

Lemma decimal_digitRun (n : N) : digitRun (decimal n).
Proof.
  destruct (decimal_NilEmpty n) as [-> Hn]. split.
  - destruct (N.to_uint n); [congruence | discriminate ..].
  - apply string_of_uint_digits.
Qed.

Lemma digitsValue_decimal (n : N) : digitsValue 0 (decimal n) = Z.of_N n.
Proof.
  destruct (decimal_NilEmpty n) as [-> _].
  rewrite digitsValue_of_uint. f_equal. apply DecimalN.Unsigned.of_to.
Qed.

Lemma parseInt10_decimal (n : N) :
  parseInt10 (decimal n) = ofInteger (Z.of_N n).
Proof.
  rewrite parseInt10_digitRun by apply decimal_digitRun.
  now rewrite digitsValue_decimal.
Qed.

Lemma digits_accepted (s : string) :
  allUnits isDigit s = true -> allUnits Version.acceptedRange s = true.
Proof. apply allUnits_impl, isDigit_accepted. Qed.

Lemma digits_hyphenToPeriod (s : string) :
  allUnits isDigit s = true -> mapUnits hyphenToPeriod s = s.
Proof. apply mapUnits_id_on, isDigit_hyphenToPeriod. Qed.

Lemma isSeparator_facts (c : ascii) :
  isSeparator c ->
  Version.acceptedRange c = true /\ hyphenToPeriod c = "."%char.
Proof. intros [-> | ->]; split; reflexivity. Qed.

(** The segments of an accepted input that needs no trimming. *)
Lemma from_accepted (input : string) :
  allUnits Version.acceptedRange input = true ->
  Version.from input
  = fromParts input (split "." (mapUnits hyphenToPeriod input)).
Proof.
  intros H. rewrite from_valid.
  - unfold segments. now rewrite (trim_accepted _ H).
  - rewrite (trim_accepted _ H). now apply not_containsOther_iff.
Qed.

Lemma from_one_run (x : string) :
  digitRun x ->
  Version.from x
  = Return (Version.mkVersion (ofInteger (digitsValue 0 x)) (ofInteger 0)
              (ofInteger 0)).
Proof.
  intros Hx. pose proof (proj2 Hx) as Dx.
  rewrite from_accepted by now apply digits_accepted.
  rewrite (digits_hyphenToPeriod _ Dx), (split_digits _ Dx).
  unfold fromParts; simpl.
  now rewrite (parseInt10_digitRun _ Hx), ofInteger_not_NaN.
Qed.

Lemma from_two_runs (x y : string) (sep1 : ascii) :
  digitRun x -> digitRun y -> isSeparator sep1 ->
  Version.from (x ++ String sep1 y)
  = Return (Version.mkVersion (ofInteger (digitsValue 0 x))
              (ofInteger (digitsValue 0 y)) (ofInteger 0)).
Proof.
  intros Hx Hy H1.
  pose proof (proj2 Hx) as Dx. pose proof (proj2 Hy) as Dy.
  destruct (isSeparator_facts _ H1) as [A1 P1].
  rewrite from_accepted.
  - rewrite mapUnits_app. cbn [mapUnits]. rewrite P1.
    rewrite (digits_hyphenToPeriod _ Dx), (digits_hyphenToPeriod _ Dy).
    rewrite (split_digits_sep _ _ Dx), (split_digits _ Dy).
    unfold fromParts; simpl.
    now rewrite (parseInt10_digitRun _ Hx), (parseInt10_digitRun _ Hy),
      !ofInteger_not_NaN.
  - rewrite allUnits_app. cbn [allUnits].
    now rewrite A1, (digits_accepted _ Dx), (digits_accepted _ Dy).
Qed.

Lemma from_three_runs (x y z : string) (sep1 sep2 : ascii) :
  digitRun x -> digitRun y -> digitRun z ->
  isSeparator sep1 -> isSeparator sep2 ->
  Version.from (x ++ String sep1 (y ++ String sep2 z))
  = Return (Version.mkVersion (ofInteger (digitsValue 0 x))
              (ofInteger (digitsValue 0 y)) (ofInteger (digitsValue 0 z))).
Proof.
  intros Hx Hy Hz H1 H2.
  pose proof (proj2 Hx) as Dx. pose proof (proj2 Hy) as Dy.
  pose proof (proj2 Hz) as Dz.
  destruct (isSeparator_facts _ H1) as [A1 P1].
  destruct (isSeparator_facts _ H2) as [A2 P2].
  rewrite from_accepted.
  - rewrite mapUnits_app. cbn [mapUnits]. rewrite mapUnits_app. cbn [mapUnits].
    rewrite P1, P2, (digits_hyphenToPeriod _ Dx), (digits_hyphenToPeriod _ Dy),
      (digits_hyphenToPeriod _ Dz).
    rewrite (split_digits_sep _ _ Dx), (split_digits_sep _ _ Dy),
      (split_digits _ Dz).
    unfold fromParts; simpl.
    now rewrite (parseInt10_digitRun _ Hx), (parseInt10_digitRun _ Hy),
      (parseInt10_digitRun _ Hz), !ofInteger_not_NaN.
  - rewrite allUnits_app. cbn [allUnits]. rewrite allUnits_app. cbn [allUnits].
    now rewrite A1, A2, (digits_accepted _ Dx), (digits_accepted _ Dy),
      (digits_accepted _ Dz).
Qed.

(** X14. Reading back what was written: for natural numbers [a], [b] and
    [c] written in base 10 and joined by periods or hyphens,
    [Version.from] returns the version whose fields are the doubles
    nearest to [a], [b] and [c]; with two numbers the patch is 0 and with
    one number the minor and the patch are 0.  The double nearest to a
    natural number below 2^53 holds that number itself. *)
Theorem from_decimal (a b c : N) (sep1 sep2 : ascii) :
  isSeparator sep1 -> isSeparator sep2 ->
  Version.from (decimal a ++ String sep1 (decimal b ++ String sep2 (decimal c)))
  = Return (Version.mkVersion (ofInteger (Z.of_N a)) (ofInteger (Z.of_N b))
              (ofInteger (Z.of_N c))) /\
  Version.from (decimal a ++ String sep1 (decimal b))
  = Return (Version.mkVersion (ofInteger (Z.of_N a)) (ofInteger (Z.of_N b))
              (ofInteger 0)) /\
  Version.from (decimal a)
  = Return (Version.mkVersion (ofInteger (Z.of_N a)) (ofInteger 0)
              (ofInteger 0)) /\
  (forall n : N,
      Z.of_N n < 2 ^ 53 ->
      integerValue (ofInteger (Z.of_N n)) = Some (Z.of_N n)).
Proof.
  intros H1 H2.
  rewrite from_three_runs, from_two_runs, from_one_run
    by auto using decimal_digitRun.
  rewrite !digitsValue_decimal. repeat split.
  intros n Hn. apply ofInteger_exact. lia.
Qed.

Lemma from_decimal_witness :
  decimal 14 ++ String "." (decimal 0 ++ String "-" (decimal 203)) = "14.0-203" /\
  Version.from "14.0-203"
  = Return (Version.mkVersion (ofInteger 14) (ofInteger 0) (ofInteger 203)).
Proof.
  split; [reflexivity|].
  exact (proj1 (from_decimal 14 0 203 "." "-" (or_introl eq_refl)
                  (or_intror eq_refl))).
Defined.

(** X15. Zeros in front of a number do not change it, and any run of digits
    is read in base 10 (never in base 8): putting a "0" in front of the
    major, the minor or the patch of a version string of three digit runs
    changes nothing in what [Version.from] returns. *)
Theorem from_leading_zero (x y z : string) (sep1 sep2 : ascii) :
  digitRun x -> digitRun y -> digitRun z ->
  isSeparator sep1 -> isSeparator sep2 ->
  let plain := Version.from (x ++ String sep1 (y ++ String sep2 z)) in
  (exists v, plain = Return v) /\
  Version.from (String "0" x ++ String sep1 (y ++ String sep2 z)) = plain /\
  Version.from (x ++ String sep1 (String "0" y ++ String sep2 z)) = plain /\
  Version.from (x ++ String sep1 (y ++ String sep2 (String "0" z))) = plain.
Proof.
  intros Hx Hy Hz H1 H2 plain. unfold plain.
  assert (Z0 : forall s, digitRun s -> digitRun (String "0" s)).
  { intros s [_ Hs]. split; [discriminate | exact Hs]. }
  rewrite !from_three_runs by auto. split; [eauto|].
  repeat split; reflexivity.
Qed.

Lemma from_leading_zero_witness :
  Version.from "007.1.2" = Version.from "07.1.2".
Proof.
  assert (H : digitRun "07" /\ digitRun "1" /\ digitRun "2").
  { repeat split; discriminate. }
  destruct H as (Hx & Hy & Hz).
  exact (proj1 (proj2 (from_leading_zero "07" "1" "2" "." "."
                         Hx Hy Hz (or_introl eq_refl) (or_introl eq_refl)))).
Defined.

(** ** [Version.from]: a separator at the end *)

(** X16. A separator at the end is refused after the first and after the
    second number, and accepted after the third: with digit runs [x], [y],
    [z], the inputs "x." and "x.y." throw, while "x.y.z." followed by any
    text made of digits, periods and hyphens returns the version read from
    [x], [y] and [z]. *)
Theorem from_trailing_separator (x y z tail : string) (sep1 sep2 sep3 : ascii) :
  digitRun x -> digitRun y -> digitRun z ->
  isSeparator sep1 -> isSeparator sep2 -> isSeparator sep3 ->
  allUnits Version.acceptedRange tail = true ->
  Version.from (x ++ String sep1 "")
  = Throw (Version.invalidVersion (x ++ String sep1 "")) /\
  Version.from (x ++ String sep1 (y ++ String sep2 ""))
  = Throw (Version.invalidVersion (x ++ String sep1 (y ++ String sep2 ""))) /\
  Version.from (x ++ String sep1 (y ++ String sep2 (z ++ String sep3 tail)))
  = Version.from (x ++ String sep1 (y ++ String sep2 z)).
Proof.
  intros Hx Hy Hz H1 H2 H3 Ht.
  pose proof (proj2 Hx) as Dx. pose proof (proj2 Hy) as Dy.
  pose proof (proj2 Hz) as Dz.
  destruct (isSeparator_facts _ H1) as [A1 P1].
  destruct (isSeparator_facts _ H2) as [A2 P2].
  destruct (isSeparator_facts _ H3) as [A3 P3].
  split; [|split].
  - rewrite from_accepted.
    + rewrite mapUnits_app. cbn [mapUnits].
      rewrite P1, (digits_hyphenToPeriod _ Dx), (split_digits_sep _ _ Dx).
      apply fromParts_throws_iff. exists 1%nat, "". simpl. repeat split; auto.
    + rewrite allUnits_app. cbn [allUnits].
      now rewrite A1, (digits_accepted _ Dx).
  - rewrite from_accepted.
    + rewrite mapUnits_app. cbn [mapUnits]. rewrite mapUnits_app. cbn [mapUnits].
      rewrite P1, P2, (digits_hyphenToPeriod _ Dx), (digits_hyphenToPeriod _ Dy).
      rewrite (split_digits_sep _ _ Dx), (split_digits_sep _ _ Dy).
      apply fromParts_throws_iff. exists 2%nat, "". simpl. repeat split; auto.
    + rewrite allUnits_app. cbn [allUnits]. rewrite allUnits_app. cbn [allUnits].
      now rewrite A1, A2, (digits_accepted _ Dx), (digits_accepted _ Dy).
  - rewrite (from_three_runs x y z sep1 sep2) by auto.
    rewrite from_accepted.
    + rewrite mapUnits_app. cbn [mapUnits]. rewrite mapUnits_app. cbn [mapUnits].
      rewrite mapUnits_app. cbn [mapUnits].
      rewrite P1, P2, P3, (digits_hyphenToPeriod _ Dx),
        (digits_hyphenToPeriod _ Dy), (digits_hyphenToPeriod _ Dz).
      rewrite (split_digits_sep _ _ Dx), (split_digits_sep _ _ Dy),
        (split_digits_sep _ _ Dz).
      unfold fromParts; simpl.
      now rewrite (parseInt10_digitRun _ Hx), (parseInt10_digitRun _ Hy),
        (parseInt10_digitRun _ Hz), !ofInteger_not_NaN.
    + rewrite allUnits_app. cbn [allUnits]. rewrite allUnits_app. cbn [allUnits].
      rewrite allUnits_app. cbn [allUnits].
      now rewrite A1, A2, A3, Ht, (digits_accepted _ Dx),
        (digits_accepted _ Dy), (digits_accepted _ Dz).
Qed.

Lemma from_trailing_separator_witness :
  Version.from "13.0." = Throw (Version.invalidVersion "13.0.") /\
  Version.from "13.0.4.-7" = Version.from "13.0.4".
Proof.
  assert (H : digitRun "13" /\ digitRun "0" /\ digitRun "4").
  { repeat split; discriminate. }
  destruct H as (Hx & Hy & Hz).
  exact (proj2 (from_trailing_separator "13" "0" "4" "-7" "." "." "."
                  Hx Hy Hz (or_introl eq_refl) (or_introl eq_refl)
                  (or_introl eq_refl) eq_refl)).
Defined.
